(** * datastore.core: serializers, the serializer shim, and keys

    A shallow embedding of [datastore/core/serialize.py] together with the
    parts of [datastore/core/key.py], [datastore/core/basic.py] and
    [datastore/core/query.py] that the serializer shim and the key tests
    rely on.

    Layout: values and exceptions, the serializer protocol and [Stack],
    generators, keys, the datastore interface and
    [SerializerShimDatastore]; then the lemmas and theorems about them. *)

From stdpp Require Import base option list strings gmap.
From Stdlib Require Import ZArith Lia Ascii.

Set Warnings "-register-all".

(* ===================================================================== *)
(** ** Python values                                                      *)
(* ===================================================================== *)

(** The values that travel through a datastore.  [PNone] is Python's
    [None], which the datastore API uses for "no value".  A dict is kept
    as the list of its items in key order, so that equal dicts are equal
    lists; dict keys are strings, as in the values of the test-suite
    ([{'value': i}]) and in the constructor's self-test. *)
Inductive pyval : Type :=
  | PNone
  | PInt (z : Z)
  | PStr (s : string)
  | PList (l : list pyval)
  | PDict (d : list (string * pyval)).

(** [value is None] / [value is not None]. *)
Definition is_None (value : pyval) : bool :=
  match value with PNone => true | _ => false end.

(** Python's [==] on these values (structural). *)
Fixpoint py_eq (x y : pyval) {struct x} : bool :=
  match x, y with
  | PNone, PNone => true
  | PInt a, PInt b => Z.eqb a b
  | PStr a, PStr b => String.eqb a b
  | PList a, PList b =>
      (fix go (a b : list pyval) {struct a} : bool :=
         match a, b with
         | [], [] => true
         | x :: a', y :: b' => py_eq x y && go a' b'
         | _, _ => false
         end) a b
  | PDict a, PDict b =>
      (fix go (a b : list (string * pyval)) {struct a} : bool :=
         match a, b with
         | [], [] => true
         | (k, x) :: a', (k', y) :: b' => String.eqb k k' && py_eq x y && go a' b'
         | _, _ => false
         end) a b
  | _, _ => false
  end.

(* ===================================================================== *)
(** ** Exceptions                                                         *)
(* ===================================================================== *)

Inductive exn : Type :=
  | AssertionError (msg : string)
  | TypeError (msg : string)
  | ValueError (msg : string)
  | KeyError (msg : string)
  | Exception (msg : string).

(** The outcome of a call: a returned value or a raised exception. *)
Inductive result (A : Type) : Type :=
  | Ok (a : A)
  | Raise (e : exn).
Arguments Ok {A} a.
Arguments Raise {A} e.

#[global] Instance result_ret : MRet result := fun A a => Ok a.
#[global] Instance result_bind : MBind result := fun A B f m =>
  match m with
  | Ok a => f a
  | Raise e => Raise e
  end.

(** [assert cond, msg]. *)
Definition assert_ (cond : bool) (msg : string) : result unit :=
  if cond then Ok tt else Raise (AssertionError msg).

(* ===================================================================== *)
(** ** The serializer protocol                                            *)
(* ===================================================================== *)

(** A serializer is any object that responds to [loads] and [dumps]: a
    module ([json], [pickle]), a class ([NonSerializer], [PrettyJSON]) or
    an instance.  [truth] is the truth value of the object, which matters
    where the code tests a serializer for truth: [True] for a module, a
    class or a plain instance, and whatever [__bool__] or [__len__] make
    it for an instance of a class that defines them.  [Stack] is the one
    serializer of the module that is also a [list]. *)
Inductive Serializer : Type :=
  | SerializerObj (truth : bool) (loads_ dumps_ : pyval → result pyval)
  | Stack (serializers : list Serializer).

(** [Stack.dumps]: [for serializer in self: value = serializer.dumps(value)]. *)
Fixpoint dumps (self : Serializer) (value : pyval) {struct self} : result pyval :=
  match self with
  | SerializerObj _ _ dumps_ => dumps_ value
  | Stack serializers =>
      (fix loop (l : list Serializer) (value : pyval) {struct l} : result pyval :=
         match l with
         | [] => Ok value
         | serializer :: l' => value ← dumps serializer value; loop l' value
         end) serializers value
  end.

(** [Stack.loads]:
    [for serializer in reversed(self): value = serializer.loads(value)].
    The last serializer of the list runs first: the recursion reaches the
    end of the list before it applies the head
    (see [loads_Stack] for the loop over [reverse serializers]). *)
Fixpoint loads (self : Serializer) (value : pyval) {struct self} : result pyval :=
  match self with
  | SerializerObj _ loads_ _ => loads_ value
  | Stack serializers =>
      (fix loop (l : list Serializer) (value : pyval) {struct l} : result pyval :=
         match l with
         | [] => Ok value
         | serializer :: l' => value ← loop l' value; loads serializer value
         end) serializers value
  end.

(** The truth value of a serializer object ([if serializer:]): a [Stack] is
    a list, hence false when empty; any other object has the truth value
    its class gives it. *)
Definition truthy (serializer : Serializer) : bool :=
  match serializer with
  | SerializerObj truth _ _ => truth
  | Stack serializers => negb (bool_decide (serializers = []))
  end.

(** [NonSerializer]: returns [value] both ways. *)
Definition NonSerializer : Serializer := SerializerObj true Ok Ok.

(** A Python [for] loop that rebinds one variable and may raise. *)
Definition for_each {A : Type} (body : A → pyval → result pyval)
    (l : list A) (value : pyval) : result pyval :=
  foldl (fun acc a => value ← acc; body a value) (Ok value) l.

(** The composition of stages as the specification writes it:
    [compose [f1; f2; ...; fn] = fn ∘ ... ∘ f2 ∘ f1] (each stage may raise). *)
Fixpoint compose (stages : list (pyval → result pyval)) : pyval → result pyval :=
  match stages with
  | [] => Ok
  | f :: rest => fun v => f v ≫= compose rest
  end.

(** [loads] undoes [dumps] along the chain of intermediate values that
    dumping [v] through [serializers] goes through. *)
Fixpoint undoes_along (serializers : list Serializer) (v : pyval) : Prop :=
  match serializers with
  | [] => True
  | s :: rest => ∃ w, dumps s v = Ok w ∧ loads s w = Ok v ∧ undoes_along rest w
  end.

(** [loads] undoes [dumps] on every value. *)
Definition round_trips (s : Serializer) : Prop :=
  ∀ v, ∃ w, dumps s v = Ok w ∧ loads s w = Ok v.

(* ===================================================================== *)
(** ** Generators                                                         *)
(* ===================================================================== *)

(** What one [next()] on an iterator does. *)
Inductive step : Type :=
  | Yield (v : pyval)
  | StopIteration
  | Raised (e : exn).

(** The calls made on the serializer while an iterator advances, as a
    counting serializer would observe them. *)
Inductive event : Type :=
  | LoadsCall (item : pyval)
  | DumpsCall (item : pyval).

(** Iterator objects: the result sequence of a backend, the two generators
    of the module suspended at their [for] loop, and a generator that has
    returned or raised. *)
Inductive iterable : Type :=
  | result_iter (items : list pyval)
  | deserialized_gen (serializer : Serializer) (it : iterable)
  | serialized_gen (serializer : Serializer) (it : iterable)
  | exhausted.

(** One [next()]: the step, the iterator afterwards, and the serializer
    calls it made.  A generator body runs only inside [next()]:
    [for item in iterable: yield serializer.loads(item)] pulls one item,
    calls [loads] on it and suspends at the [yield]. *)
Fixpoint next (it : iterable) : step * iterable * list event :=
  match it with
  | result_iter [] => (StopIteration, result_iter [], [])
  | result_iter (item :: rest) => (Yield item, result_iter rest, [])
  | deserialized_gen serializer it0 =>
      match next it0 with
      | (Yield item, it', evs) =>
          match loads serializer item with
          | Ok v => (Yield v, deserialized_gen serializer it', evs ++ [LoadsCall item])
          | Raise e => (Raised e, exhausted, evs ++ [LoadsCall item])
          end
      | (StopIteration, _, evs) => (StopIteration, exhausted, evs)
      | (Raised e, _, evs) => (Raised e, exhausted, evs)
      end
  | serialized_gen serializer it0 =>
      match next it0 with
      | (Yield item, it', evs) =>
          match dumps serializer item with
          | Ok v => (Yield v, serialized_gen serializer it', evs ++ [DumpsCall item])
          | Raise e => (Raised e, exhausted, evs ++ [DumpsCall item])
          end
      | (StopIteration, _, evs) => (StopIteration, exhausted, evs)
      | (Raised e, _, evs) => (Raised e, exhausted, evs)
      end
  | exhausted => (StopIteration, exhausted, [])
  end.

(** A consumer that asks for at most [m] elements: it calls [next()] until
    it has [m] elements or the iterator stops or raises.  Returns the
    steps seen, the iterator afterwards and the serializer calls made. *)
Fixpoint consume (m : nat) (it : iterable) : list step * iterable * list event :=
  match m with
  | O => ([], it, [])
  | S m' =>
      match next it with
      | (Yield v, it', evs) =>
          let '(steps, it'', evs') := consume m' it' in
          (Yield v :: steps, it'', evs ++ evs')
      | (st, it', evs) => ([st], it', evs)
      end
  end.

(** The number of [loads] calls in a log. *)
Definition is_LoadsCall (ev : event) : bool :=
  match ev with LoadsCall _ => true | DumpsCall _ => false end.

Definition loads_calls (evs : list event) : nat :=
  length (List.filter is_LoadsCall evs).

(** What a step yields when the element deserializes. *)
Definition step_of (r : result pyval) : step :=
  match r with Ok v => Yield v | Raise e => Raised e end.

(* ===================================================================== *)
(** ** Keys                                                               *)
(* ===================================================================== *)

Definition is_sep (c : ascii) : bool := Ascii.eqb c "/"%char.

(** Modelled from the spec: [Key.remove_duplicate_slashes]
    ([datastore/core/key.py] is not part of the sources at hand).
    "Collapse repeated separators to one, drop trailing separator except
    for the root." *)
Fixpoint collapse (s : string) : string :=
  match s with
  | EmptyString => EmptyString
  | String c s' =>
      if is_sep c then
        match s' with
        | String c' _ => if is_sep c' then collapse s' else String c (collapse s')
        | EmptyString => String c EmptyString
        end
      else String c (collapse s')
  end.

Fixpoint drop_trailing (s : string) : string :=
  match s with
  | EmptyString => EmptyString
  | String c EmptyString => if is_sep c then EmptyString else s
  | String c s' => String c (drop_trailing s')
  end.

Definition remove_duplicate_slashes (path : string) : string :=
  let s := collapse path in
  if String.eqb s "/" then s else drop_trailing s.

(** Modelled from the spec: class [Key], an immutable value holding the
    normalized string [_string]. *)
Record Key : Type := mkKey { _string : string }.

#[global] Instance Key_eq_dec : EqDecision Key.
Proof. solve_decision. Defined.
#[global] Instance Key_countable : Countable Key :=
  inj_countable' _string mkKey (fun k => match k with mkKey s => eq_refl end).

(** Modelled from the spec: [Key(string)] "normalizes raw and stores the
    canonical form; never fails". *)
Definition new_Key (key : string) : Key := mkKey (remove_duplicate_slashes key).

(** [str.split('/')] and ['/'.join(...)], used by the key tests to say
    what [parent] is. *)
Fixpoint split (s : string) : list string :=
  match s with
  | EmptyString => [EmptyString]
  | String c s' =>
      if is_sep c then EmptyString :: split s'
      else match split s' with
           | seg :: segs => String c seg :: segs
           | [] => [String c EmptyString]
           end
  end.

Fixpoint join (l : list string) : string :=
  match l with
  | [] => EmptyString
  | [seg] => seg
  | seg :: l' => seg +:+ "/" +:+ join l'
  end.

(** Modelled from the spec: [Key.child] "appends a child segment; accepts
    either a bare name or another Key as the child label" (the label is
    taken as its string). *)
Definition child (self : Key) (other : string) : Key :=
  new_Key (_string self +:+ "/" +:+ other).

(** Modelled from the spec: the segments of a key, "one /-delimited
    component of a Key": the non-empty components of its string. *)
Definition segments (s : string) : list string :=
  List.filter (fun seg => negb (String.eqb seg "")) (split s).

(** Modelled from the spec: [Key.parent] "fails with InvalidOperation
    when the key has no ancestor segment (i.e., is a single top-level
    segment); otherwise returns the key formed by all segments but the
    last".  The failure is the [ValueError] that [test_key.py] expects,
    and the key formed by all segments but the last is the one the test
    computes, [Key('/'.join(split_string[:-1]))] for
    [split_string = fixed_string.split('/')]: the string up to the
    separator before the last segment. *)
Definition parent (self : Key) : result Key :=
  let split_string := split (_string self) in
  if decide (1 < length (segments (_string self)))
  then Ok (new_Key (join (removelast split_string)))
  else Raise (ValueError "base key (it has no parent)").

(** Modelled from the spec: [Key.is_ancestor_of] "true iff other's
    normalized string starts with this key's string plus a separator and
    the two are not equal". *)
Definition is_ancestor_of (self other : Key) : bool :=
  String.prefix (_string self +:+ "/") (_string other)
  && negb (String.eqb (_string self) (_string other)).

(** Modelled from the spec: [Key.is_descendant_of] "is the inverse
    relation". *)
Definition is_descendant_of (self other : Key) : bool :=
  is_ancestor_of other self.

(** What a normalized string looks like: no separator is followed by a
    separator, and the last character is no separator. *)
Definition starts_with_sep (s : string) : bool :=
  match s with
  | String c _ => is_sep c
  | EmptyString => false
  end.

Fixpoint no_double (s : string) : bool :=
  match s with
  | EmptyString => true
  | String c s' => negb (is_sep c && starts_with_sep s') && no_double s'
  end.

Fixpoint ends_with_sep (s : string) : bool :=
  match s with
  | EmptyString => false
  | String c EmptyString => is_sep c
  | String _ s' => ends_with_sep s'
  end.

(** A name that is one segment: non-empty and without a separator. *)
Fixpoint no_sep (s : string) : bool :=
  match s with
  | EmptyString => true
  | String c s' => negb (is_sep c) && no_sep s'
  end.

Definition bare_name (name : string) : bool :=
  negb (String.eqb name "") && no_sep name.

(* ===================================================================== *)
(** ** Datastores and cursors                                             *)
(* ===================================================================== *)

(** Modelled from the spec: the cursor of [datastore/core/query.py], "a
    lazy sequence of result values" ([_iterable], the attribute the shim
    assigns) together with the query it answers and whatever other
    attributes the backend gave it (a total count, say), by name. *)
Record Cursor (Query : Type) : Type := mkCursor {
  cursor_query : Query;
  _iterable : iterable;
  cursor_attrs : gmap string pyval;
}.
Arguments mkCursor {Query} _ _ _.
Arguments cursor_query {Query} _.
Arguments _iterable {Query} _.
Arguments cursor_attrs {Query} _.

(** [cursor._iterable = it]. *)
Definition set_iterable {Query} (cursor : Cursor Query) (it : iterable) : Cursor Query :=
  {| cursor_query := cursor_query cursor;
     _iterable := it;
     cursor_attrs := cursor_attrs cursor |}.

(** A method of an object that holds a reference to a datastore whose
    state is [D]: it may change that state, and returns or raises. *)
Definition M (D A : Type) : Type := D → result A * D.

#[global] Instance M_ret {D} : MRet (M D) := fun A a d => (Ok a, d).
#[global] Instance M_bind {D} : MBind (M D) := fun A B f m d =>
  match m d with
  | (Ok a, d') => f a d'
  | (Raise e, d') => (Raise e, d')
  end.

(** A computation that does not touch the datastore. *)
Definition lift {D A} (r : result A) : M D A := fun d => (r, d).

(** Modelled from the spec: the datastore contract of
    [datastore/core/basic.py], "anything exposing get(key) ->
    value-or-absent, put(key, value), delete(key), contains(key) -> bool,
    query(query) -> cursor".  Absence is [None]. *)
Class Datastore (Query D : Type) : Type := {
  ds_get : Key → M D pyval;
  ds_put : Key → pyval → M D unit;
  ds_delete : Key → M D unit;
  ds_contains : Key → M D bool;
  ds_query : Query → M D (Cursor Query);
}.

(** Modelled from the spec: [DictDatastore], the in-memory map backend:
    "put stores value under key, overwriting any prior value", "delete is
    a no-op when the key is absent", "contains is equivalent to
    get(key) != absent"; a query is answered with every stored value. *)
#[global] Instance DictDatastore (Query : Type) : Datastore Query (gmap Key pyval) := {|
  ds_get key := fun d => (Ok (default PNone (d !! key)), d);
  ds_put key value := fun d =>
    (Ok tt, if is_None value then delete key d else <[key := value]> d);
  ds_delete key := fun d => (Ok tt, delete key d);
  ds_contains key := fun d => (Ok (bool_decide (is_Some (d !! key))), d);
  ds_query q := fun d =>
    (Ok (mkCursor q (result_iter (snd <$> map_to_list d)) ∅), d);
|}.

(* ===================================================================== *)
(** ** SerializerShimDatastore                                            *)
(* ===================================================================== *)

(** The shim object.  [child_datastore] is a reference to the child, whose
    state is the one threaded through [M]; what the object itself holds is
    its serializer. *)
Record SerializerShimDatastore : Type := mkShim { serializer : Serializer }.

Definition error_str : string :=
  "Serializer error: serialized value does not match original".

(** The constructor's test value, [{'value': repr(self)}]. *)
Definition test_value (self_repr : string) : pyval :=
  PDict [("value", PStr self_repr)].

Section Shim.
Context {Query D : Type} `{!Datastore Query D}.

(** [default_serializer = json]: the [json] module is not modelled, it is
    whatever serializer [json] stands for. *)
Variable json : Serializer.
Definition default_serializer : Serializer := json.

(** [SerializerShimDatastore.__init__(self, datastore, serializer=None)].
    [self_repr] is [repr(self)], which the default [repr] derives from
    the address of the new object. *)
Definition __init__ (serializer_arg : option Serializer) (self_repr : string)
    : M D SerializerShimDatastore :=
  (* super().__init__(datastore) keeps the reference to the child;
     serializer = default_serializer is the class attribute *)
  let self := mkShim default_serializer in
  (* if serializer: self.serializer = serializer *)
  let self :=
    match serializer_arg with
    | Some s => if truthy s then mkShim s else self
    | None => self
    end in
  (* ensure serializer works *)
  let test := test_value self_repr in
  lift (roundtrip ← dumps (serializer self) test ≫= loads (serializer self);
        assert_ (py_eq roundtrip test) error_str;;
        Ok self).

(** [get]: [value = self.child_datastore.get(key)];
    [return self.serializer.loads(value) if value is not None else None]. *)
Definition get (self : SerializerShimDatastore) (key : Key) : M D pyval :=
  value ← ds_get key;
  lift (if negb (is_None value) then loads (serializer self) value else Ok PNone).

(** [put]: [value = self.serializer.dumps(value) if value is not None else None];
    [self.child_datastore.put(key, value)]. *)
Definition put (self : SerializerShimDatastore) (key : Key) (value : pyval) : M D unit :=
  value ← lift (if negb (is_None value) then dumps (serializer self) value else Ok PNone);
  ds_put key value.

(** [query]: run the query on the child datastore, chain the
    deserializing generator to the cursor's result set iterable. *)
Definition query (self : SerializerShimDatastore) (query : Query) : M D (Cursor Query) :=
  cursor ← ds_query query;
  mret (set_iterable cursor (deserialized_gen (serializer self) (_iterable cursor))).

(** Modelled from the spec: [ShimDatastore], whose "default behavior for
    any unoverridden operation is pure delegation to the child". *)
Definition delete (self : SerializerShimDatastore) (key : Key) : M D unit :=
  ds_delete key.
Definition contains (self : SerializerShimDatastore) (key : Key) : M D bool :=
  ds_contains key.

(** [shim(datastore, serializer=None)]. *)
Definition shim (serializer_arg : option Serializer) (self_repr : string)
    : M D SerializerShimDatastore :=
  __init__ serializer_arg self_repr.
End Shim.

(** A serializer that wraps a value in a one-element list and unwraps it. *)
Definition BoxSerializer : Serializer :=
  SerializerObj true
    (fun value => match value with
                  | PList [v] => Ok v
                  | _ => Raise (ValueError "not a boxed value")
                  end)
    (fun value => Ok (PList [value])).

(** A serializer for text: it keeps a string as it is and flattens any
    other value to a word for its type; [loads] returns the text. *)
Definition flatten (value : pyval) : string :=
  match value with
  | PStr s => s
  | PNone => "None"
  | PInt _ => "int"
  | PList _ => "list"
  | PDict _ => "dict"
  end.

Definition TextSerializer : Serializer :=
  SerializerObj true Ok (fun value => Ok (PStr (flatten value))).

(** The serializer the constructor configures: the argument when one is
    given and is true, the class default otherwise. *)
Definition configured_serializer (json : Serializer) (serializer_arg : option Serializer)
    : Serializer :=
  match serializer_arg with
  | Some s => if truthy s then s else default_serializer json
  | None => default_serializer json
  end.

(** The failure the specification calls [SerializerConfigurationError]:
    the constructor's [assert] with its message. *)
Definition SerializerConfigurationError : exn := AssertionError error_str.


(** A serializer object that is false in a boolean context (an instance
    whose class gives it length 0, as a list subclass does when empty)
    and whose [dumps] loses the value. *)
Definition EmptyLossy : Serializer :=
  SerializerObj false Ok (fun _ => Ok (PStr "lost")).

(** A serializer for optional text, with the text [null] for [None] as
    in JSON, and a string [s] written as [s] after the letter s. *)
Definition TaggedText : Serializer :=
  SerializerObj true
    (fun value => match value with
                  | PStr "null" => Ok PNone
                  | PStr (String "s" t) => Ok (PStr t)
                  | _ => Raise (ValueError "malformed text")
                  end)
    (fun value => match value with
                  | PNone => Ok (PStr "null")
                  | PStr t => Ok (PStr (String "s" t))
                  | _ => Raise (TypeError "not optional text")
                  end).

(** The contract a child is used under: a value that was put under a key
    is what get returns for that key, and get does not change the store. *)
Class DatastoreContract (Query D : Type) `{!Datastore Query D} : Prop := {
  get_after_put : ∀ (key : Key) (value : pyval) (d d' : D),
    ds_put key value d = (Ok tt, d') → ds_get key d' = (Ok value, d');
}.

(** The key and the stack of the examples. *)
Definition hello : Key := new_Key "/hello".
Definition BoxStack : Serializer := Stack [BoxSerializer; BoxSerializer].

(** A store of three boxed values, as a child would hold them. *)
Definition three_values : gmap Key pyval :=
  {[ new_Key "/0" := PList [PInt 0];
     new_Key "/1" := PList [PInt 1];
     new_Key "/2" := PList [PInt 2] ]}.

(** A step that yielded an element. *)
Definition is_Yield (st : step) : bool :=
  match st with Yield _ => true | _ => false end.

(** A [SerializerShimDatastore] is a datastore itself (it derives from
    [ShimDatastore]) and can be the child of another shim: its five
    operations, over the state of its own child. *)
Definition shim_as_datastore {Query D : Type} `{!Datastore Query D}
    (inner : SerializerShimDatastore) : Datastore Query D :=
  {| ds_get := get inner;
     ds_put := put inner;
     ds_delete := delete inner;
     ds_contains := contains inner;
     ds_query := query inner |}.

(** The constructor's round trip of a value through a serializer. *)
Definition round_trip (s : Serializer) (v : pyval) : result pyval :=
  dumps s v ≫= loads s.

(* ===================================================================== *)
(** * Lemmas and theorems                                                 *)
(* ===================================================================== *)

Lemma bind_Ok {A B} (f : A → result B) (a : A) : (Ok a ≫= f) = f a.
Proof. reflexivity. Qed.

Lemma bind_Raise {A B} (f : A → result B) (e : exn) : (Raise e ≫= f) = Raise e.
Proof. reflexivity. Qed.

Lemma for_each_Raise {A} (body : A → pyval → result pyval) l e :
  foldl (fun acc a => value ← acc; body a value) (Raise e) l = Raise e.
Proof. induction l as [|a l IH]; simpl; auto. Qed.

Lemma for_each_cons {A} (body : A → pyval → result pyval) a l v :
  for_each body (a :: l) v = body a v ≫= for_each body l.
Proof.
  unfold for_each. simpl. destruct (body a v) as [w|e]; simpl.
  - reflexivity.
  - apply for_each_Raise.
Qed.

Lemma for_each_app {A} (body : A → pyval → result pyval) l1 l2 v :
  for_each body (l1 ++ l2) v = for_each body l1 v ≫= for_each body l2.
Proof.
  revert v. induction l1 as [|a l1 IH]; intros v.
  - reflexivity.
  - rewrite <- app_comm_cons, !for_each_cons.
    destruct (body a v) as [w|e]; simpl; [apply IH | reflexivity].
Qed.

(** The loop of [Stack.dumps]. *)
Lemma dumps_Stack serializers v :
  dumps (Stack serializers) v = for_each dumps serializers v.
Proof.
  revert v. induction serializers as [|s l IH]; intros v.
  - reflexivity.
  - rewrite for_each_cons. simpl. destruct (dumps s v) as [w|e]; simpl.
    + apply IH.
    + reflexivity.
Qed.

(** The loop of [Stack.loads], over the reversed list. *)
Lemma loads_Stack serializers v :
  loads (Stack serializers) v = for_each loads (reverse serializers) v.
Proof.
  revert v. induction serializers as [|s l IH]; intros v.
  - reflexivity.
  - rewrite reverse_cons, for_each_app.
    change (loads (Stack (s :: l)) v) with (loads (Stack l) v ≫= loads s).
    rewrite IH. destruct (for_each loads (reverse l) v) as [w|e]; simpl.
    + unfold for_each. simpl. reflexivity.
    + reflexivity.
Qed.

Lemma for_each_compose {A} (body : A → pyval → result pyval) l v :
  for_each body l v = compose (map body l) v.
Proof.
  revert v. induction l as [|a l IH]; intros v.
  - reflexivity.
  - rewrite for_each_cons. simpl. destruct (body a v); simpl; auto.
Qed.

Lemma round_trips_undoes_along serializers v :
  Forall round_trips serializers → undoes_along serializers v.
Proof.
  intros H. revert v. induction H as [|s l Hs _ IH]; intros v; simpl.
  - exact I.
  - destruct (Hs v) as (w & Hd & Hl). exists w. auto.
Qed.

Lemma Stack_undoes serializers v :
  undoes_along serializers v →
  ∃ w, dumps (Stack serializers) v = Ok w ∧ loads (Stack serializers) w = Ok v.
Proof.
  revert v. induction serializers as [|s l IH]; intros v H.
  - exists v. split; reflexivity.
  - destruct H as (w & Hd & Hl & Hrest).
    destruct (IH w Hrest) as (u & Hdu & Hlu).
    exists u. split.
    + change (dumps (Stack (s :: l)) v) with (dumps s v ≫= dumps (Stack l)).
      rewrite Hd. exact Hdu.
    + change (loads (Stack (s :: l)) u) with (loads (Stack l) u ≫= loads s).
      rewrite Hlu. exact Hl.
Qed.

(** C4: for a Stack [s1; s2; ...; sn], [dumps] is the composition
    [sn ∘ ... ∘ s2 ∘ s1] (the serializers applied in forward order) and
    [loads] applies them in reverse order; hence for every value [v] on
    which each component's [loads] undoes its [dumps] (along the chain of
    intermediate values), [Stack.loads(Stack.dumps(v)) == v]. *)
Theorem Stack_loads_dumps (serializers : list Serializer) (v : pyval) :
  dumps (Stack serializers) v = compose (map dumps serializers) v ∧
  loads (Stack serializers) v = compose (map loads (reverse serializers)) v ∧
  (undoes_along serializers v →
   ∃ w, dumps (Stack serializers) v = Ok w ∧ loads (Stack serializers) w = Ok v).
Proof.
  split; [|split].
  - rewrite dumps_Stack. apply for_each_compose.
  - rewrite loads_Stack. apply for_each_compose.
  - apply Stack_undoes.
Qed.

Lemma Stack_loads_dumps_witness :
  undoes_along [NonSerializer; BoxSerializer; Stack [BoxSerializer]] (PInt 3) ∧
  ∃ w, dumps (Stack [NonSerializer; BoxSerializer; Stack [BoxSerializer]]) (PInt 3) = Ok w ∧
       loads (Stack [NonSerializer; BoxSerializer; Stack [BoxSerializer]]) w = Ok (PInt 3).
Proof.
  assert (H : undoes_along [NonSerializer; BoxSerializer; Stack [BoxSerializer]] (PInt 3)).
  { simpl. exists (PInt 3). do 2 (split; [reflexivity|]).
    exists (PList [PInt 3]). do 2 (split; [reflexivity|]).
    exists (PList [PList [PInt 3]]). do 2 (split; [reflexivity|]). exact I. }
  split; [exact H|].
  exact (proj2 (proj2 (Stack_loads_dumps _ (PInt 3))) H).
Defined.

(* ===================================================================== *)
(** ** Equality of values                                                 *)
(* ===================================================================== *)

Lemma py_eq_eq : ∀ x y, py_eq x y = true → x = y.
Proof.
  fix IH 1.
  intros [|a|a|a|a] [|b|b|b|b]; simpl; try discriminate; intros H.
  - reflexivity.
  - apply Z.eqb_eq in H. congruence.
  - apply String.eqb_eq in H. congruence.
  - f_equal. revert b H.
    induction a as [|x a IHa]; intros [|y b] H; try discriminate; [reflexivity|].
    apply andb_true_iff in H as [H1 H2].
    f_equal; [apply IH, H1 | apply IHa, H2].
  - f_equal. revert b H.
    induction a as [|[k x] a IHa]; intros [|[k' y] b] H; try discriminate; [reflexivity|].
    apply andb_true_iff in H as [H12 H3]. apply andb_true_iff in H12 as [H1 H2].
    apply String.eqb_eq in H1.
    f_equal; [f_equal; [exact H1 | apply IH, H2] | apply IHa, H3].
Qed.

Lemma py_eq_refl : ∀ x, py_eq x x = true.
Proof.
  fix IH 1.
  intros [|a|a|a|a]; simpl.
  - reflexivity.
  - apply Z.eqb_refl.
  - apply String.eqb_refl.
  - induction a as [|x a IHa]; [reflexivity|].
    rewrite IH. exact IHa.
  - induction a as [|[k x] a IHa]; [reflexivity|].
    rewrite String.eqb_refl, IH. exact IHa.
Qed.

Lemma py_eq_spec x y : py_eq x y = true ↔ x = y.
Proof. split; [apply py_eq_eq | intros ->; apply py_eq_refl]. Qed.

Lemma py_eq_false x y : py_eq x y = false ↔ x ≠ y.
Proof.
  rewrite <- py_eq_spec. destruct (py_eq x y); split; congruence.
Qed.

(* ===================================================================== *)
(** ** The constructor's self-test                                        *)
(* ===================================================================== *)

Lemma round_trip_empty_Stack v : round_trip (Stack []) v = Ok v.
Proof. reflexivity. Qed.

Section Constructor.
Context {D : Type} (json : Serializer).

(** What the constructor does, by the outcome of the round trip of the
    test value through the configured serializer. *)
Lemma init_unfold (arg : option Serializer) (self_repr : string) (d : D) :
  __init__ json arg self_repr d =
  (match round_trip (configured_serializer json arg) (test_value self_repr) with
   | Ok y => if py_eq y (test_value self_repr)
             then Ok (mkShim (configured_serializer json arg))
             else Raise SerializerConfigurationError
   | Raise e => Raise e
   end, d).
Proof.
  unfold __init__, configured_serializer, round_trip, lift.
  destruct arg as [s|]; [destruct (truthy s)|]; simpl;
    match goal with |- context [dumps ?s ?v] => destruct (dumps s v) as [w|e] end;
    simpl; try reflexivity;
    match goal with |- context [loads ?s ?v] => destruct (loads s v) as [y|e] end;
    simpl; try reflexivity;
    match goal with |- context [py_eq ?a ?b] => destruct (py_eq a b) end;
    reflexivity.
Qed.

(** The constructor configures a serializer that is true in a boolean
    context, and the default in place of one that is false. *)
Lemma configured_truthy (J : Serializer) :
  configured_serializer json (Some J) = if truthy J then J else json.
Proof. reflexivity. Qed.
End Constructor.

(** C2, as the code has it: for every serializer [J] that is true in a
    boolean context (the constructor configures its argument only
    [if serializer:]) and whose round trip of the constructor's test value
    returns something different from it, constructing
    [SerializerShimDatastore(child, J)] raises the constructor's assertion
    failure (the specification's [SerializerConfigurationError]): no shim
    exists on which [put] or [get] could be called, and the child's state
    is what it was. *)
Theorem init_rejects_broken_serializer {D : Type} (json J : Serializer)
    (self_repr : string) (y : pyval) (d : D) :
  truthy J = true →
  round_trip J (test_value self_repr) = Ok y →
  y ≠ test_value self_repr →
  __init__ json (Some J) self_repr d = (Raise SerializerConfigurationError, d).
Proof.
  intros Ht Hrt Hne. rewrite init_unfold, configured_truthy, Ht, Hrt.
  apply py_eq_false in Hne. rewrite Hne. reflexivity.
Qed.

Lemma init_rejects_broken_serializer_witness :
  truthy TextSerializer = true ∧
  round_trip TextSerializer (test_value "<shim>") = Ok (PStr "dict") ∧
  PStr "dict" ≠ test_value "<shim>" ∧
  __init__ NonSerializer (Some TextSerializer) "<shim>" (∅ : gmap Key pyval)
  = (Raise SerializerConfigurationError, ∅).
Proof.
  split; [reflexivity|]. split; [reflexivity|]. split; [discriminate|].
  apply (init_rejects_broken_serializer NonSerializer TextSerializer "<shim>" (PStr "dict"));
    [reflexivity | reflexivity | discriminate].
Defined.

(** C2 as stated fails: [EmptyLossy] does not round-trip the test value,
    but it is false in a boolean context, so the constructor keeps the
    default serializer, tests that one, and succeeds when the default
    round-trips the test value (here [NonSerializer] stands for it). *)
Lemma init_accepts_falsy_broken_serializer :
  round_trip EmptyLossy (test_value "<shim>") = Ok (PStr "lost") ∧
  PStr "lost" ≠ test_value "<shim>" ∧
  __init__ NonSerializer (Some EmptyLossy) "<shim>" (∅ : gmap Key pyval)
  = (Ok (mkShim NonSerializer), ∅) ∧
  __init__ NonSerializer (Some EmptyLossy) "<shim>" (∅ : gmap Key pyval)
  ≠ (Raise SerializerConfigurationError, ∅).
Proof.
  split; [reflexivity|]. split; [discriminate|]. split; [reflexivity | discriminate].
Qed.

(** C10: the constructor's test value is the one-entry dict
    [{'value': <a string>}], and construction succeeds exactly when the
    configured serializer round-trips that dict; a serializer that
    round-trips every string ([TextSerializer]) is rejected all the same,
    because it does not round-trip a dict. *)
Theorem init_self_test_is_a_dict {D : Type} (json : Serializer)
    (arg : option Serializer) (self_repr : string) (d : D) :
  test_value self_repr = PDict [("value", PStr self_repr)] ∧
  ((∃ self, __init__ json arg self_repr d = (Ok self, d)) ↔
   round_trip (configured_serializer json arg) (test_value self_repr)
   = Ok (test_value self_repr)) ∧
  (∃ J, (∀ s, round_trip J (PStr s) = Ok (PStr s)) ∧
        ∃ e, __init__ json (Some J) self_repr d = (Raise e, d)).
Proof.
  split; [reflexivity|]. split.
  - rewrite init_unfold.
    destruct (round_trip _ _) as [y|e] eqn:Hrt.
    + destruct (py_eq y (test_value self_repr)) eqn:Heq.
      * apply py_eq_spec in Heq. subst y. split; [reflexivity | eauto].
      * apply py_eq_false in Heq. split.
        -- intros [self Hself]. inversion Hself.
        -- intros Hy. congruence.
    + split.
      * intros [self Hself]. inversion Hself.
      * discriminate.
  - exists TextSerializer. split; [reflexivity|].
    exists SerializerConfigurationError.
    rewrite init_unfold. reflexivity.
Qed.

(* ===================================================================== *)
(** ** put and get                                                        *)
(* ===================================================================== *)

#[global] Instance DictDatastore_contract (Query : Type) :
  DatastoreContract Query (gmap Key pyval).
Proof.
  split. intros key value d d' Hput. simpl in *.
  injection Hput as <-. f_equal.
  destruct value; simpl; rewrite ?lookup_delete_eq, ?lookup_insert_eq; reflexivity.
Qed.

Section PutGet.
Context {Query D : Type} `{!Datastore Query D}.
Implicit Types (self : SerializerShimDatastore) (key : Key) (d : D).

(** [put] of a value other than [None]: the child is given the
    serialized value. *)
Lemma put_unfold self key value d :
  value ≠ PNone →
  put self key value d =
  match dumps (serializer self) value with
  | Ok w => ds_put key w d
  | Raise e => (Raise e, d)
  end.
Proof.
  intros Hv. unfold put, lift, mbind, M_bind.
  destruct value; try congruence; simpl;
    match goal with |- context [dumps ?s ?v] => destruct (dumps s v) end; reflexivity.
Qed.

(** [put] of [None] forwards [None]. *)
Lemma put_None self key d : put self key PNone d = ds_put key PNone d.
Proof. reflexivity. Qed.

(** [get] when the child has nothing under the key. *)
Lemma get_absent self key d d' :
  ds_get key d = (Ok PNone, d') → get self key d = (Ok PNone, d').
Proof. intros H. unfold get, lift, mbind, M_bind. rewrite H. reflexivity. Qed.

(** [get] when the child has a raw value under the key. *)
Lemma get_present self key raw d d' :
  raw ≠ PNone → ds_get key d = (Ok raw, d') →
  get self key d = (loads (serializer self) raw, d').
Proof.
  intros Hraw H. unfold get, lift, mbind, M_bind. rewrite H.
  destruct raw; simpl; congruence.
Qed.

(** A child's failure is passed on. *)
Lemma get_raise self key e d d' :
  ds_get key d = (Raise e, d') → get self key d = (Raise e, d').
Proof. intros H. unfold get, lift, mbind, M_bind. rewrite H. reflexivity. Qed.

Lemma put_stores_serialized `{!DatastoreContract Query D} self key v w d d' :
  v ≠ PNone → dumps (serializer self) v = Ok w →
  put self key v d = (Ok tt, d') → ds_get key d' = (Ok w, d').
Proof.
  intros Hv Hd Hput. rewrite put_unfold, Hd in Hput by assumption.
  eapply get_after_put, Hput.
Qed.

Lemma get_after_put_shim `{!DatastoreContract Query D} self key v w d d' :
  v ≠ PNone → dumps (serializer self) v = Ok w → w ≠ PNone →
  loads (serializer self) w = Ok v →
  put self key v d = (Ok tt, d') → get self key d' = (Ok v, d').
Proof.
  intros Hv Hd Hw Hl Hput.
  rewrite (get_present self key w d' d' Hw), Hl; [reflexivity|].
  exact (put_stores_serialized self key v w d d' Hv Hd Hput).
Qed.
End PutGet.




(** C5, as the code has it: for every key [k], [get(k)] returns [None]
    (and raises nothing) when the child holds no value under [k]; when the
    child holds a raw value [r] other than [None], [get(k)] is [loads(r)],
    which is [None] again when [loads(r)] is; and a value [v] other than
    [None] stored by [put(k, v)] is read back as [v], hence not as
    absence, when [dumps(v)] is not [None] and [loads(dumps(v)) == v]. *)
Theorem get_absent_or_loads {Query D : Type} `{!Datastore Query D}
    `{!DatastoreContract Query D} (self : SerializerShimDatastore) (key : Key) (d : D) :
  (∀ d', ds_get key d = (Ok PNone, d') → get self key d = (Ok PNone, d')) ∧
  (∀ raw d', raw ≠ PNone → ds_get key d = (Ok raw, d') →
             get self key d = (loads (serializer self) raw, d')) ∧
  (∀ v w d0, v ≠ PNone → dumps (serializer self) v = Ok w → w ≠ PNone →
             loads (serializer self) w = Ok v →
             put self key v d0 = (Ok tt, d) →
             get self key d = (Ok v, d) ∧ get self key d ≠ (Ok PNone, d)).
Proof.
  split; [|split].
  - intros d'. apply get_absent.
  - intros raw d'. apply get_present.
  - intros v w d0 Hv Hd Hw Hl Hput.
    rewrite (get_after_put_shim self key v w d0 d Hv Hd Hw Hl Hput).
    split; [reflexivity | congruence].
Qed.

Lemma get_absent_or_loads_witness :
  get (Query := unit) (mkShim TaggedText) hello (∅ : gmap Key pyval) = (Ok PNone, ∅) ∧
  get (Query := unit) (mkShim TaggedText) hello ({[ hello := PStr "sworld" ]} : gmap Key pyval)
  = (Ok (PStr "world"), {[ hello := PStr "sworld" ]}) ∧
  get (Query := unit) (mkShim TaggedText) hello ({[ hello := PStr "sworld" ]} : gmap Key pyval)
  ≠ (Ok PNone, {[ hello := PStr "sworld" ]}).
Proof.
  split.
  - apply (proj1 (get_absent_or_loads (Query := unit) (mkShim TaggedText) hello ∅)).
    reflexivity.
  - apply (proj2 (proj2 (get_absent_or_loads (Query := unit) (mkShim TaggedText) hello
                           {[ hello := PStr "sworld" ]})) (PStr "world") (PStr "sworld") ∅);
      [discriminate | reflexivity | discriminate | reflexivity | reflexivity].
Defined.

(** C5 as stated fails: with [TaggedText], for which the text [null]
    stands for [None] as in JSON, a child that holds [null] under a key
    has a value there ([contains] is true) and [get] returns [None], the
    result it returns for a key that holds nothing. *)
Lemma get_None_with_a_stored_value :
  ds_get (Query := unit) hello ({[ hello := PStr "null" ]} : gmap Key pyval)
  = (Ok (PStr "null"), {[ hello := PStr "null" ]}) ∧
  contains (Query := unit) (mkShim TaggedText) hello ({[ hello := PStr "null" ]} : gmap Key pyval)
  = (Ok true, {[ hello := PStr "null" ]}) ∧
  get (Query := unit) (mkShim TaggedText) hello ({[ hello := PStr "null" ]} : gmap Key pyval)
  = (Ok PNone, {[ hello := PStr "null" ]}) ∧
  ¬ (get (Query := unit) (mkShim TaggedText) hello ({[ hello := PStr "null" ]} : gmap Key pyval)
     = (Ok PNone, {[ hello := PStr "null" ]}) ↔
     ds_get (Query := unit) hello ({[ hello := PStr "null" ]} : gmap Key pyval)
     = (Ok PNone, {[ hello := PStr "null" ]})).
Proof.
  split; [reflexivity|]. split; [reflexivity|]. split; [reflexivity|].
  intros [H _]. specialize (H eq_refl). discriminate H.
Qed.

(* ===================================================================== *)
(** ** query: the deserializing generator                                 *)
(* ===================================================================== *)

Lemma loads_calls_LoadsCall (items : list pyval) :
  loads_calls (LoadsCall <$> items) = length items.
Proof.
  unfold loads_calls. induction items as [|x l IH]; simpl; [reflexivity|].
  f_equal. exact IH.
Qed.

(** One [next()] of the generator over a non-empty result sequence: one
    item is pulled and [loads] is called on it, once. *)
Lemma next_deserialized_gen_cons s x rest :
  next (deserialized_gen s (result_iter (x :: rest))) =
  match loads s x with
  | Ok v => (Yield v, deserialized_gen s (result_iter rest), [LoadsCall x])
  | Raise e => (Raised e, exhausted, [LoadsCall x])
  end.
Proof. simpl. destruct (loads s x); reflexivity. Qed.

Lemma next_deserialized_gen_nil s :
  next (deserialized_gen s (result_iter [])) = (StopIteration, exhausted, []).
Proof. reflexivity. Qed.

(** Whatever the serializer does, a consumer of at most [m] elements has
    [loads] called on the first [n] items only, in order and once each,
    for some [n ≤ m]. *)
Lemma consume_calls_prefix s (items : list pyval) (m : nat) :
  ∃ n, n ≤ m ∧ n ≤ length items ∧
       (consume m (deserialized_gen s (result_iter items))).2 = LoadsCall <$> take n items.
Proof.
  revert items. induction m as [|m IH]; intros items.
  - exists 0. repeat split; simpl; lia.
  - destruct items as [|x rest].
    + exists 0. repeat split; simpl; lia.
    + cbn [consume]. rewrite next_deserialized_gen_cons.
      destruct (loads s x) as [v|e].
      * destruct (IH rest) as (n & Hm & Hn & Hevs).
        destruct (consume m (deserialized_gen s (result_iter rest))) as [[steps it'] evs'].
        simpl in Hevs. subst evs'.
        exists (S n). repeat split; simpl; lia.
      * exists 1. repeat split; simpl; lia.
Qed.

(** When the first [m] items deserialize, a consumer of [m] elements
    gets their deserialized values, [loads] has been called on exactly
    those, and the rest of the child's sequence has not been pulled. *)
Lemma consume_prefix s (items vs : list pyval) (m : nat) :
  m ≤ length items →
  Forall2 (fun x v => loads s x = Ok v) (take m items) vs →
  consume m (deserialized_gen s (result_iter items)) =
  (Yield <$> vs, deserialized_gen s (result_iter (drop m items)), LoadsCall <$> take m items).
Proof.
  revert items vs. induction m as [|m IH]; intros items vs Hm Hall.
  - rewrite take_0 in Hall. inversion Hall. reflexivity.
  - destruct items as [|x rest]; [simpl in Hm; lia|].
    simpl in Hm. rewrite firstn_cons in Hall.
    inversion Hall as [|? v ? vs' Hx Hrest]; subst.
    cbn [consume]. rewrite next_deserialized_gen_cons, Hx.
    rewrite (IH rest vs') by (assumption || lia).
    reflexivity.
Qed.

(** After the last element the generator stops. *)
Lemma consume_all s (items vs : list pyval) (m : nat) :
  length items < m →
  Forall2 (fun x v => loads s x = Ok v) items vs →
  consume m (deserialized_gen s (result_iter items)) =
  ((Yield <$> vs) ++ [StopIteration], exhausted, LoadsCall <$> items).
Proof.
  revert items vs. induction m as [|m IH]; intros items vs Hm Hall; [lia|].
  destruct items as [|x rest].
  - inversion Hall. reflexivity.
  - simpl in Hm. inversion Hall as [|? v ? vs' Hx Hrest]; subst.
    cbn [consume]. rewrite next_deserialized_gen_cons, Hx.
    rewrite (IH rest vs') by (assumption || lia).
    reflexivity.
Qed.

Section Query.
Context {Query D : Type} `{!Datastore Query D}.
Implicit Types (self : SerializerShimDatastore) (d : D).

Lemma query_unfold self (q : Query) d :
  query self q d =
  match ds_query q d with
  | (Ok cursor, d') =>
      (Ok (set_iterable cursor (deserialized_gen (serializer self) (_iterable cursor))), d')
  | (Raise e, d') => (Raise e, d')
  end.
Proof.
  unfold query, mbind, M_bind. destruct (ds_query q d) as [[cursor|e] d']; reflexivity.
Qed.
End Query.

(** C3: for every query object [q], [query(q)] hands [q] to the child (it
    fails as the child does, and otherwise returns the child's cursor for
    [q]), with the deserializing generator over the child's result
    sequence as the cursor's sequence.  Over a child sequence [items]: a
    consumer of at most [m] elements has [loads] called on at most [m]
    items (the first ones, once each, none before it asks); when the
    first [m] items deserialize it gets exactly their [loads], and the
    child's sequence has been advanced by [m] only. *)
Theorem query_is_lazy {Query D : Type} `{!Datastore Query D}
    (self : SerializerShimDatastore) (q : Query) (d : D) :
  (∀ e d', ds_query q d = (Raise e, d') → query self q d = (Raise e, d')) ∧
  (∀ cursor d' items,
     ds_query q d = (Ok cursor, d') →
     _iterable cursor = result_iter items →
     ∃ cursor',
       query self q d = (Ok cursor', d') ∧
       cursor_query cursor' = cursor_query cursor ∧
       _iterable cursor' = deserialized_gen (serializer self) (result_iter items) ∧
       (∀ m, ∃ n, n ≤ m ∧
              (consume m (_iterable cursor')).2 = LoadsCall <$> take n items ∧
              loads_calls (consume m (_iterable cursor')).2 = n) ∧
       (∀ m vs, m ≤ length items →
                Forall2 (fun x v => loads (serializer self) x = Ok v) (take m items) vs →
                consume m (_iterable cursor') =
                (Yield <$> vs,
                 deserialized_gen (serializer self) (result_iter (drop m items)),
                 LoadsCall <$> take m items))).
Proof.
  split.
  - intros e d' Hq. rewrite query_unfold, Hq. reflexivity.
  - intros cursor d' items Hq Hit.
    eexists. split; [rewrite query_unfold, Hq; reflexivity|].
    simpl. rewrite Hit. split; [reflexivity|]. split; [reflexivity|]. split.
    + intros m. destruct (consume_calls_prefix (serializer self) items m) as (n & Hm & Hn & Hevs).
      exists n. split; [exact Hm|]. split; [exact Hevs|].
      rewrite Hevs, loads_calls_LoadsCall, length_take. lia.
    + intros m vs Hm Hall. apply consume_prefix; assumption.
Qed.

Lemma query_three_values :
  ds_query (Query := unit) tt three_values =
  (Ok (mkCursor tt (result_iter [PList [PInt 1]; PList [PInt 2]; PList [PInt 0]]) ∅),
   three_values).
Proof. vm_compute. reflexivity. Defined.

Lemma query_is_lazy_witness :
  ∃ cursor',
    query (Query := unit) (mkShim BoxSerializer) tt three_values = (Ok cursor', three_values) ∧
    consume 2 (_iterable cursor') =
    ([Yield (PInt 1); Yield (PInt 2)],
     deserialized_gen BoxSerializer (result_iter [PList [PInt 0]]),
     [LoadsCall (PList [PInt 1]); LoadsCall (PList [PInt 2])]).
Proof.
  destruct (proj2 (query_is_lazy (Query := unit) (mkShim BoxSerializer) tt three_values)
              (mkCursor tt (result_iter [PList [PInt 1]; PList [PInt 2]; PList [PInt 0]]) ∅)
              three_values
              [PList [PInt 1]; PList [PInt 2]; PList [PInt 0]]
              query_three_values eq_refl)
    as (cursor' & Hq & _ & _ & _ & Hconsume).
  exists cursor'. split; [exact Hq|].
  apply (Hconsume 2 [PInt 1; PInt 2]); [simpl; lia|].
  repeat constructor.
Defined.

(** C9: for every query [q], the cursor [query(q)] returns is the child's
    cursor with its result sequence replaced and nothing else changed: the
    query it answers and every other attribute are the child's, putting
    the child's sequence back gives the child's cursor again, and the
    child's state is the one the child's own [query] left. *)
Theorem query_preserves_cursor {Query D : Type} `{!Datastore Query D}
    (self : SerializerShimDatastore) (q : Query) (d d' : D) (cursor : Cursor Query) :
  ds_query q d = (Ok cursor, d') →
  ∃ cursor',
    query self q d = (Ok cursor', d') ∧
    cursor_query cursor' = cursor_query cursor ∧
    cursor_attrs cursor' = cursor_attrs cursor ∧
    _iterable cursor' = deserialized_gen (serializer self) (_iterable cursor) ∧
    set_iterable cursor' (_iterable cursor) = cursor.
Proof.
  intros Hq. eexists. split; [rewrite query_unfold, Hq; reflexivity|].
  destruct cursor as [cq it attrs]. repeat split.
Qed.

Lemma query_preserves_cursor_witness :
  ∃ cursor',
    query (Query := unit) (mkShim BoxSerializer) tt three_values = (Ok cursor', three_values) ∧
    cursor_query cursor' = tt ∧
    cursor_attrs cursor' = ∅ ∧
    _iterable cursor' =
    deserialized_gen BoxSerializer
      (result_iter [PList [PInt 1]; PList [PInt 2]; PList [PInt 0]]).
Proof.
  destruct (query_preserves_cursor (Query := unit) (mkShim BoxSerializer) tt
              three_values three_values
              (mkCursor tt (result_iter [PList [PInt 1]; PList [PInt 2]; PList [PInt 0]]) ∅)
              query_three_values)
    as (cursor' & Hq & Hquery & Hattrs & Hit & _).
  exists cursor'. repeat split; assumption.
Defined.

(* ===================================================================== *)
(** ** Keys: normalization                                                *)
(* ===================================================================== *)

Lemma is_sep_eq c : is_sep c = true → c = "/"%char.
Proof. apply Ascii.eqb_eq. Qed.

Lemma collapse_cons c s :
  collapse (String c s) =
  if is_sep c && starts_with_sep s then collapse s else String c (collapse s).
Proof.
  cbn [collapse]. destruct (is_sep c); [|reflexivity].
  destruct s as [|c' s']; [reflexivity|].
  simpl. destruct (is_sep c'); reflexivity.
Qed.

Lemma starts_with_sep_collapse s : starts_with_sep (collapse s) = starts_with_sep s.
Proof.
  induction s as [|c s IH]; [reflexivity|].
  rewrite collapse_cons.
  destruct (is_sep c && starts_with_sep s) eqn:Hcs; [|reflexivity].
  apply andb_true_iff in Hcs as [Hc Hs].
  rewrite IH, Hs. simpl. symmetry. exact Hc.
Qed.

Lemma no_double_collapse s : no_double (collapse s) = true.
Proof.
  induction s as [|c s IH]; [reflexivity|].
  rewrite collapse_cons.
  destruct (is_sep c && starts_with_sep s) eqn:Hcs; [exact IH|].
  cbn [no_double]. rewrite starts_with_sep_collapse, Hcs, IH. reflexivity.
Qed.

Lemma collapse_no_double s : no_double s = true → collapse s = s.
Proof.
  induction s as [|c s IH]; [reflexivity|].
  cbn [no_double]. intros H. apply andb_true_iff in H as [Hcs Hs].
  apply negb_true_iff in Hcs.
  rewrite collapse_cons, Hcs, (IH Hs). reflexivity.
Qed.


Lemma drop_trailing_cons c s :
  drop_trailing (String c s) =
  match s with
  | EmptyString => if is_sep c then EmptyString else String c EmptyString
  | _ => String c (drop_trailing s)
  end.
Proof. destruct s; reflexivity. Qed.

Lemma starts_with_sep_drop_trailing s :
  starts_with_sep (drop_trailing s) = true → starts_with_sep s = true.
Proof.
  destruct s as [|c [|c' s']]; simpl; try (intros; assumption).
  destruct (is_sep c) eqn:Hc; simpl; rewrite ?Hc; congruence.
Qed.

Lemma no_double_drop_trailing s : no_double s = true → no_double (drop_trailing s) = true.
Proof.
  induction s as [|c s IH]; [reflexivity|].
  intros H. cbn [no_double] in H. apply andb_true_iff in H as [Hcs Hs].
  rewrite drop_trailing_cons. destruct s as [|c' s'].
  - destruct (is_sep c) eqn:Hc; simpl; rewrite ?Hc; reflexivity.
  - cbn [no_double]. rewrite (IH Hs), andb_true_r.
    apply negb_true_iff in Hcs. apply negb_true_iff.
    destruct (is_sep c) eqn:Hc; [|reflexivity]. simpl in Hcs. rewrite andb_true_l.
    destruct (starts_with_sep (drop_trailing (String c' s'))) eqn:Hd; [|reflexivity].
    apply starts_with_sep_drop_trailing in Hd. simpl in Hd. congruence.
Qed.

Lemma drop_trailing_id s : ends_with_sep s = false → drop_trailing s = s.
Proof.
  induction s as [|c s IH]; [reflexivity|].
  rewrite drop_trailing_cons. destruct s as [|c' s'].
  - simpl. intros ->. reflexivity.
  - intros H. rewrite IH; [reflexivity | exact H].
Qed.

Lemma drop_trailing_empty s :
  drop_trailing s = EmptyString → s = EmptyString ∨ s = "/".
Proof.
  destruct s as [|c [|c' s']]; simpl; [auto | | discriminate].
  destruct (is_sep c) eqn:Hc; [|discriminate].
  apply is_sep_eq in Hc. subst c. auto.
Qed.

Lemma ends_with_sep_drop_trailing s :
  no_double s = true → s ≠ "/" → ends_with_sep (drop_trailing s) = false.
Proof.
  induction s as [|c s IH]; [reflexivity|].
  intros Hnd Hroot. cbn [no_double] in Hnd. apply andb_true_iff in Hnd as [Hcs Hs].
  apply negb_true_iff in Hcs.
  rewrite drop_trailing_cons. destruct s as [|c' s'].
  - destruct (is_sep c) eqn:Hc; simpl; [reflexivity | exact Hc].
  - destruct (drop_trailing (String c' s')) as [|c'' t] eqn:Hd.
    + apply drop_trailing_empty in Hd as [Hd|Hd]; [discriminate|].
      injection Hd as -> ->. simpl in Hcs. rewrite andb_true_r in Hcs. exact Hcs.
    + change (ends_with_sep (String c (String c'' t))) with (ends_with_sep (String c'' t)).
      apply IH; [exact Hs|].
      intros Heq. rewrite Heq in Hd. simpl in Hd. discriminate Hd.
Qed.

(** The normalized form has no repeated separator and, unless it is the
    root, no trailing one. *)
Lemma remove_duplicate_slashes_normal s :
  no_double (remove_duplicate_slashes s) = true ∧
  (remove_duplicate_slashes s = "/" ∨ ends_with_sep (remove_duplicate_slashes s) = false).
Proof.
  unfold remove_duplicate_slashes. cbv zeta.
  destruct (String.eqb (collapse s) "/") eqn:Hroot.
  - apply String.eqb_eq in Hroot. split; [apply no_double_collapse | left; exact Hroot].
  - apply String.eqb_neq in Hroot. split.
    + apply no_double_drop_trailing, no_double_collapse.
    + right. apply ends_with_sep_drop_trailing; [apply no_double_collapse | exact Hroot].
Qed.

(** A string of that shape is its own normalized form. *)
Lemma remove_duplicate_slashes_fixed s :
  no_double s = true → s = "/" ∨ ends_with_sep s = false →
  remove_duplicate_slashes s = s.
Proof.
  intros Hnd Hend. unfold remove_duplicate_slashes. cbv zeta.
  rewrite (collapse_no_double s Hnd).
  destruct (String.eqb s "/") eqn:Hroot; [reflexivity|].
  apply String.eqb_neq in Hroot. destruct Hend as [Hend|Hend]; [contradiction|].
  apply drop_trailing_id, Hend.
Qed.

Lemma remove_duplicate_slashes_idempotent s :
  remove_duplicate_slashes (remove_duplicate_slashes s) = remove_duplicate_slashes s.
Proof.
  destruct (remove_duplicate_slashes_normal s) as [Hnd Hend].
  apply remove_duplicate_slashes_fixed; assumption.
Qed.

(** C6: key normalization is idempotent,
    [normalize(normalize(s)) == normalize(s)] for every raw string [s];
    the normalized form has its repeated separators collapsed and its
    trailing separator dropped (the root apart); and constructing a [Key]
    from a string stores that form, so that a key built from a normalized
    string is the key built from the raw one. *)
Theorem normalize_idempotent (s : string) :
  remove_duplicate_slashes (remove_duplicate_slashes s) = remove_duplicate_slashes s ∧
  no_double (remove_duplicate_slashes s) = true ∧
  (remove_duplicate_slashes s = "/" ∨ ends_with_sep (remove_duplicate_slashes s) = false) ∧
  _string (new_Key s) = remove_duplicate_slashes s ∧
  new_Key (remove_duplicate_slashes s) = new_Key s.
Proof.
  split; [apply remove_duplicate_slashes_idempotent|].
  split; [apply remove_duplicate_slashes_normal|].
  split; [apply remove_duplicate_slashes_normal|].
  split; [reflexivity|].
  unfold new_Key. rewrite remove_duplicate_slashes_idempotent. reflexivity.
Qed.

Example normalize_scenario :
  _string (new_Key "/fdisaha////fdsa////x/y/") = "/fdisaha/fdsa/x/y".
Proof. reflexivity. Qed.

Example normalize_all_separators : _string (new_Key "////") = "/".
Proof. reflexivity. Qed.

Example normalize_relative : _string (new_Key "abcde//f/") = "abcde/f".
Proof. reflexivity. Qed.

(* ===================================================================== *)
(** ** Keys: child and parent                                             *)
(* ===================================================================== *)

Lemma split_not_nil s : split s ≠ [].
Proof.
  destruct s as [|c s]; simpl; [discriminate|].
  destruct (is_sep c); [discriminate|]. destruct (split s); discriminate.
Qed.

Lemma split_app_sep t n : split (t +:+ String "/" n) = split t ++ split n.
Proof.
  induction t as [|c t IH]; [reflexivity|].
  simpl. rewrite IH. destruct (is_sep c); [reflexivity|].
  destruct (split t) as [|seg segs] eqn:Ht; [|reflexivity].
  exfalso. exact (split_not_nil t Ht).
Qed.

Lemma split_no_sep n : no_sep n = true → split n = [n].
Proof.
  induction n as [|c n IH]; [reflexivity|].
  simpl. intros H. apply andb_true_iff in H as [Hc Hn].
  apply negb_true_iff in Hc. rewrite Hc, (IH Hn). reflexivity.
Qed.

Lemma join_cons seg l : l ≠ [] → join (seg :: l) = seg +:+ String "/" (join l).
Proof. destruct l; [congruence | reflexivity]. Qed.

Lemma join_split s : join (split s) = s.
Proof.
  induction s as [|c s IH]; [reflexivity|].
  simpl. destruct (is_sep c) eqn:Hc.
  - rewrite join_cons by apply split_not_nil.
    rewrite IH. apply is_sep_eq in Hc. subst c. reflexivity.
  - destruct (split s) as [|seg segs] eqn:Hs; [exfalso; exact (split_not_nil s Hs)|].
    rewrite <- IH. destruct segs; reflexivity.
Qed.

Lemma no_sep_starts n : no_sep n = true → starts_with_sep n = false.
Proof.
  destruct n as [|c n]; [reflexivity|]. simpl. intros H.
  apply andb_true_iff in H as [Hc _]. apply negb_true_iff, Hc.
Qed.

Lemma no_sep_no_double n : no_sep n = true → no_double n = true.
Proof.
  induction n as [|c n IH]; [reflexivity|].
  simpl. intros H. apply andb_true_iff in H as [Hc Hn].
  apply negb_true_iff in Hc. rewrite Hc, (IH Hn). reflexivity.
Qed.

Lemma no_sep_ends n : no_sep n = true → ends_with_sep n = false.
Proof.
  induction n as [|c n IH]; [reflexivity|].
  intros H. cbn [no_sep] in H. apply andb_true_iff in H as [Hc Hn].
  apply negb_true_iff in Hc. destruct n as [|c' n']; [exact Hc|].
  exact (IH Hn).
Qed.

Lemma ends_with_sep_cons c s : s ≠ EmptyString → ends_with_sep (String c s) = ends_with_sep s.
Proof. destruct s; [congruence | reflexivity]. Qed.

Lemma append_sep_not_empty t n : t +:+ String "/" n ≠ EmptyString.
Proof. destruct t; discriminate. Qed.

Lemma no_double_append t n :
  no_double t = true → ends_with_sep t = false → no_sep n = true →
  no_double (t +:+ String "/" n) = true.
Proof.
  intros Hnd Hend Hn. induction t as [|c t IH].
  - simpl. rewrite (no_sep_starts n Hn), (no_sep_no_double n Hn). reflexivity.
  - cbn [no_double] in Hnd. apply andb_true_iff in Hnd as [Hct Ht].
    change (String c t +:+ String "/" n) with (String c (t +:+ String "/" n)).
    cbn [no_double]. destruct t as [|c' t'].
    + simpl in Hend. simpl. rewrite Hend. simpl.
      rewrite (no_sep_starts n Hn), (no_sep_no_double n Hn). reflexivity.
    + rewrite ends_with_sep_cons in Hend by discriminate.
      rewrite (IH Ht Hend), andb_true_r. exact Hct.
Qed.

Lemma ends_with_sep_append t n :
  no_sep n = true → n ≠ EmptyString → ends_with_sep (t +:+ String "/" n) = false.
Proof.
  intros Hn Hne. induction t as [|c t IH].
  - simpl. destruct n as [|c' n']; [congruence|]. apply (no_sep_ends _ Hn).
  - change (String c t +:+ String "/" n) with (String c (t +:+ String "/" n)).
    rewrite ends_with_sep_cons by apply append_sep_not_empty. exact IH.
Qed.

Lemma bare_name_spec name :
  bare_name name = true ↔ name ≠ EmptyString ∧ no_sep name = true.
Proof.
  unfold bare_name. rewrite andb_true_iff, negb_true_iff, String.eqb_neq. reflexivity.
Qed.

(** Appending one segment to a normalized string other than the root
    gives a normalized string. *)
Lemma child_string (self : Key) (name : string) :
  no_double (_string self) = true → ends_with_sep (_string self) = false →
  bare_name name = true →
  _string (child self name) = _string self +:+ String "/" name.
Proof.
  intros Hnd Hend Hname. apply bare_name_spec in Hname as [Hne Hn].
  unfold child, new_Key. cbn [_string].
  change (_string self +:+ "/" +:+ name) with (_string self +:+ String "/" name).
  apply remove_duplicate_slashes_fixed.
  - apply no_double_append; assumption.
  - right. apply ends_with_sep_append; assumption.
Qed.

Lemma new_Key_string s : new_Key (_string (new_Key s)) = new_Key s.
Proof. unfold new_Key. cbn [_string]. rewrite remove_duplicate_slashes_idempotent. reflexivity. Qed.

Lemma segments_app_sep t n : segments (t +:+ String "/" n) = segments t ++ segments n.
Proof. unfold segments. rewrite split_app_sep. apply List.filter_app. Qed.

Lemma segments_bare_name name : bare_name name = true → segments name = [name].
Proof.
  intros H. apply bare_name_spec in H as [Hne Hn].
  unfold segments. rewrite (split_no_sep name Hn). simpl.
  apply String.eqb_neq in Hne. rewrite Hne. reflexivity.
Qed.







(** A single top-level segment, the empty key and the root have no
    parent. *)
Example parent_of_top_level :
  parent (new_Key "/A") = Raise (ValueError "base key (it has no parent)") ∧
  parent (new_Key "abcde") = Raise (ValueError "base key (it has no parent)") ∧
  parent (new_Key "") = Raise (ValueError "base key (it has no parent)") ∧
  parent (new_Key "////") = Raise (ValueError "base key (it has no parent)").
Proof. repeat split. Qed.

(* ===================================================================== *)
(** ** Keys: ancestors and descendants                                    *)
(* ===================================================================== *)

Lemma prefix_append_self s c : String.prefix (s +:+ String c EmptyString) s = false.
Proof.
  induction s as [|a s IH]; [reflexivity|].
  simpl. destruct (ascii_dec a a); [exact IH | reflexivity].
Qed.

Lemma prefix_sep_differs s t : String.prefix (s +:+ "/") t = true → s ≠ t.
Proof.
  intros Hp Heq. subst t. rewrite prefix_append_self in Hp. discriminate Hp.
Qed.

Lemma Key_eq (k1 k2 : Key) : k1 = k2 ↔ _string k1 = _string k2.
Proof.
  split; [intros ->; reflexivity|].
  destruct k1, k2. simpl. intros ->. reflexivity.
Qed.

Lemma is_ancestor_of_prefix (k1 k2 : Key) :
  is_ancestor_of k1 k2 = String.prefix (_string k1 +:+ "/") (_string k2).
Proof.
  unfold is_ancestor_of.
  destruct (String.prefix (_string k1 +:+ "/") (_string k2)) eqn:Hp; [|reflexivity].
  apply prefix_sep_differs, String.eqb_neq in Hp. rewrite Hp. reflexivity.
Qed.

(** C8: for all keys [k1] and [k2], [k1.is_ancestor_of(k2)] holds if and
    only if [k2.is_descendant_of(k1)] does; it holds exactly when the
    string of [k2] starts with the string of [k1] plus a separator and the
    two keys are unequal (which the prefix already implies); and no key
    is its own ancestor or its own descendant. *)
Theorem ancestor_descendant (k1 k2 : Key) :
  (is_ancestor_of k1 k2 = true ↔ is_descendant_of k2 k1 = true) ∧
  (is_ancestor_of k1 k2 = true ↔
   String.prefix (_string k1 +:+ "/") (_string k2) = true ∧ k1 ≠ k2) ∧
  is_ancestor_of k1 k2 = String.prefix (_string k1 +:+ "/") (_string k2) ∧
  is_ancestor_of k1 k1 = false ∧
  is_descendant_of k1 k1 = false.
Proof.
  split; [reflexivity|]. split; [|split; [apply is_ancestor_of_prefix|]].
  - rewrite is_ancestor_of_prefix. split.
    + intros Hp. split; [exact Hp|].
      rewrite Key_eq. apply prefix_sep_differs, Hp.
    + intros [Hp _]. exact Hp.
  - unfold is_descendant_of. rewrite is_ancestor_of_prefix.
    split; apply prefix_append_self.
Qed.

Example ancestry_of_the_tests :
  is_ancestor_of (new_Key "/A/B/C") (new_Key "/A/B/C/D") = true ∧
  is_descendant_of (new_Key "/A/B/C/D") (new_Key "/A/B/C") = true ∧
  is_ancestor_of (new_Key "/A") (new_Key "/A/B/C/D") = true ∧
  is_descendant_of (new_Key "/A") (new_Key "/A/B/C") = false ∧
  is_ancestor_of (new_Key "/A/B/C/D") (new_Key "/A") = false ∧
  is_ancestor_of (new_Key "/A/B/C") (new_Key "/A/B/C") = false ∧
  child (new_Key "/A/B/C") "D" = new_Key "/A/B/C/D" ∧
  parent (new_Key "/A/B/C/D") = Ok (new_Key "/A/B/C") ∧
  is_ancestor_of (new_Key "/A/B/C:c") (new_Key "/A/B/C:c/D:d") = true.
Proof. repeat split. Qed.

(** An empty [Stack] is a serializer (the identity), but it is false in a
    boolean context: given one, the constructor keeps the class default. *)
Example empty_Stack_not_configured (json : Serializer) :
  round_trips (Stack []) ∧ configured_serializer json (Some (Stack [])) = json.
Proof. split; [intros v; exists v; split; reflexivity | reflexivity]. Qed.

(* ===================================================================== *)
(** * Further properties of the module                                    *)
(* ===================================================================== *)

(** ** Stacks of serializers *)

Lemma bind_Ok_r {A} (m : result A) : (m ≫= Ok) = m.
Proof. destruct m; reflexivity. Qed.

Lemma bind_assoc_result {A B C} (m : result A) (f : A → result B) (g : B → result C) :
  ((m ≫= f) ≫= g) = (m ≫= fun a => f a ≫= g).
Proof. destruct m; reflexivity. Qed.

Lemma dumps_Stack_app l1 l2 v :
  dumps (Stack (l1 ++ l2)) v = dumps (Stack l1) v ≫= dumps (Stack l2).
Proof.
  rewrite !dumps_Stack, for_each_app.
  destruct (for_each dumps l1 v) as [w|e]; simpl; [|reflexivity].
  symmetry. apply dumps_Stack.
Qed.

Lemma loads_Stack_app l1 l2 v :
  loads (Stack (l1 ++ l2)) v = loads (Stack l2) v ≫= loads (Stack l1).
Proof.
  rewrite !loads_Stack, reverse_app, for_each_app.
  destruct (for_each loads (reverse l2) v) as [w|e]; simpl; [|reflexivity].
  symmetry. apply loads_Stack.
Qed.

Lemma dumps_Stack_cons s l v :
  dumps (Stack (s :: l)) v = dumps s v ≫= dumps (Stack l).
Proof. reflexivity. Qed.

Lemma loads_Stack_cons s l v :
  loads (Stack (s :: l)) v = loads (Stack l) v ≫= loads s.
Proof. reflexivity. Qed.

(** X1: stacks compose by concatenation.  Dumping through [l1 ++ l2] is
    dumping through [l1] and then through [l2], loading through it is
    loading through [l2] and then through [l1], exceptions included; a
    stack of two stacks behaves as the stack of the concatenated lists,
    and a stack of one serializer as that serializer. *)
Theorem Stack_concatenation (l1 l2 : list Serializer) (s : Serializer) (v : pyval) :
  dumps (Stack (l1 ++ l2)) v = dumps (Stack l1) v ≫= dumps (Stack l2) ∧
  loads (Stack (l1 ++ l2)) v = loads (Stack l2) v ≫= loads (Stack l1) ∧
  dumps (Stack [Stack l1; Stack l2]) v = dumps (Stack (l1 ++ l2)) v ∧
  loads (Stack [Stack l1; Stack l2]) v = loads (Stack (l1 ++ l2)) v ∧
  dumps (Stack [s]) v = dumps s v ∧
  loads (Stack [s]) v = loads s v.
Proof.
  split; [apply dumps_Stack_app|]. split; [apply loads_Stack_app|].
  split; [|split; [|split]].
  - rewrite dumps_Stack_app, !dumps_Stack_cons.
    destruct (dumps (Stack l1) v) as [w|e]; simpl; [|reflexivity].
    apply bind_Ok_r.
  - rewrite loads_Stack_app, !loads_Stack_cons.
    change (loads (Stack []) v) with (Ok v). simpl.
    reflexivity.
  - rewrite dumps_Stack_cons. apply bind_Ok_r.
  - rewrite loads_Stack_cons. reflexivity.
Qed.

(** X2: a stack stops at the first stage that raises.  When the stages
    before [s] dump [v] to [w] and [s.dumps(w)] raises, [Stack.dumps]
    raises that exception whatever follows [s]; likewise for [loads],
    whose stages run from the end of the list. *)
Theorem Stack_first_failure (l1 l2 : list Serializer) (s : Serializer)
    (v w : pyval) (e : exn) :
  (dumps (Stack l1) v = Ok w → dumps s w = Raise e →
   dumps (Stack (l1 ++ s :: l2)) v = Raise e) ∧
  (loads (Stack l2) v = Ok w → loads s w = Raise e →
   loads (Stack (l1 ++ s :: l2)) v = Raise e).
Proof.
  split; intros H1 H2.
  - rewrite dumps_Stack_app, H1, bind_Ok, dumps_Stack_cons, H2. reflexivity.
  - rewrite loads_Stack_app, loads_Stack_cons, H1, bind_Ok, H2. reflexivity.
Qed.

Lemma Stack_first_failure_witness :
  dumps (Stack ([BoxSerializer] ++ TaggedText :: [BoxSerializer])) (PStr "a")
  = Raise (TypeError "not optional text") ∧
  loads (Stack ([BoxSerializer] ++ TaggedText :: [BoxSerializer])) (PList [PStr "a"])
  = Raise (ValueError "malformed text").
Proof.
  split.
  - apply (proj1 (Stack_first_failure [BoxSerializer] [BoxSerializer] TaggedText
                    (PStr "a") (PList [PStr "a"]) (TypeError "not optional text")));
      reflexivity.
  - apply (proj2 (Stack_first_failure [BoxSerializer] [BoxSerializer] TaggedText
                    (PList [PStr "a"]) (PStr "a") (ValueError "malformed text")));
      reflexivity.
Defined.

(** X3: a stack of serializers whose [loads] undoes their [dumps] on every
    value is such a serializer itself, so stacks can be nested and given
    to the shim like any other serializer. *)
Theorem Stack_round_trips (serializers : list Serializer) :
  Forall round_trips serializers → round_trips (Stack serializers).
Proof.
  intros Hall v. apply Stack_undoes, round_trips_undoes_along, Hall.
Qed.

Lemma NonSerializer_round_trips : round_trips NonSerializer.
Proof. intros v. exists v. split; reflexivity. Qed.

Lemma BoxSerializer_round_trips : round_trips BoxSerializer.
Proof. intros v. exists (PList [v]). split; reflexivity. Qed.

Lemma Stack_round_trips_witness :
  round_trips (Stack [NonSerializer; BoxSerializer]).
Proof.
  apply (Stack_round_trips [NonSerializer; BoxSerializer]).
  repeat constructor;
    [apply NonSerializer_round_trips | apply BoxSerializer_round_trips].
Defined.

(** ** The constructor *)

(** X4: the constructor accepts a serializer that is true in a boolean
    context and round-trips the test value: it returns a shim whose
    serializer is the one given, and leaves the child as it was; [shim]
    does the same. *)
Theorem init_accepts {D : Type} (json J : Serializer) (self_repr : string) (d : D) :
  truthy J = true →
  round_trip J (test_value self_repr) = Ok (test_value self_repr) →
  __init__ json (Some J) self_repr d = (Ok (mkShim J), d) ∧
  shim json (Some J) self_repr d = (Ok (mkShim J), d).
Proof.
  intros Ht Hrt.
  assert (H : __init__ json (Some J) self_repr d = (Ok (mkShim J), d)).
  { rewrite init_unfold. unfold configured_serializer. rewrite Ht, Hrt, py_eq_refl.
    reflexivity. }
  split; [exact H | exact H].
Qed.

Lemma init_accepts_witness :
  __init__ TextSerializer (Some BoxStack) "<shim>" (∅ : gmap Key pyval)
  = (Ok (mkShim BoxStack), ∅) ∧
  shim TextSerializer (Some BoxStack) "<shim>" (∅ : gmap Key pyval)
  = (Ok (mkShim BoxStack), ∅).
Proof.
  apply (init_accepts TextSerializer BoxStack "<shim>" (∅ : gmap Key pyval));
    reflexivity.
Defined.

(** X5: an empty [Stack] given to the constructor is ignored, although it
    is a serializer (the identity): [if serializer:] is false for an
    empty list, so the constructor does what it does without a serializer
    argument, and a shim it returns serializes with the default. *)
Theorem init_ignores_empty_Stack {D : Type} (json : Serializer) (self_repr : string)
    (d d' : D) (self : SerializerShimDatastore) :
  __init__ json (Some (Stack [])) self_repr d = __init__ json None self_repr d ∧
  (__init__ json (Some (Stack [])) self_repr d = (Ok self, d') →
   serializer self = json ∧ d' = d ∧
   round_trip json (test_value self_repr) = Ok (test_value self_repr)).
Proof.
  split; [reflexivity|].
  rewrite init_unfold.
  change (configured_serializer json (Some (Stack []))) with json.
  destruct (round_trip json (test_value self_repr)) as [y|e]; [|discriminate].
  destruct (py_eq y (test_value self_repr)) eqn:Heq; [|discriminate].
  apply py_eq_spec in Heq. subst y.
  intros H. injection H as <- <-. auto.
Qed.

Lemma init_ignores_empty_Stack_witness :
  __init__ BoxSerializer (Some (Stack [])) "<shim>" (∅ : gmap Key pyval)
  = (Ok (mkShim BoxSerializer), ∅) ∧
  serializer (mkShim BoxSerializer) = BoxSerializer.
Proof.
  assert (H : __init__ BoxSerializer (Some (Stack [])) "<shim>" (∅ : gmap Key pyval)
              = (Ok (mkShim BoxSerializer), ∅)) by reflexivity.
  split; [exact H|].
  exact (proj1 (proj2 (init_ignores_empty_Stack BoxSerializer "<shim>" ∅ ∅
                         (mkShim BoxSerializer)) H)).
Defined.

(** X6: an exception raised by the configured serializer during the
    self-test leaves the constructor as it is, not as an assertion
    failure: the exception of [dumps] on the test value, or that of
    [loads] on what [dumps] returned.  The child is untouched. *)
Theorem init_propagates_serializer_error {D : Type} (json : Serializer)
    (arg : option Serializer) (self_repr : string) (d : D) (w : pyval) (e : exn) :
  (dumps (configured_serializer json arg) (test_value self_repr) = Raise e →
   __init__ json arg self_repr d = (Raise e, d)) ∧
  (dumps (configured_serializer json arg) (test_value self_repr) = Ok w →
   loads (configured_serializer json arg) w = Raise e →
   __init__ json arg self_repr d = (Raise e, d)).
Proof.
  split.
  - intros Hd. rewrite init_unfold. unfold round_trip. rewrite Hd. reflexivity.
  - intros Hd Hl. rewrite init_unfold. unfold round_trip. rewrite Hd, bind_Ok, Hl.
    reflexivity.
Qed.

Lemma init_propagates_serializer_error_witness :
  __init__ NonSerializer (Some TaggedText) "<shim>" (∅ : gmap Key pyval)
  = (Raise (TypeError "not optional text"), ∅) ∧
  __init__ NonSerializer (Some (SerializerObj true (fun _ => Raise (ValueError "unreadable")) Ok))
    "<shim>" (∅ : gmap Key pyval)
  = (Raise (ValueError "unreadable"), ∅).
Proof.
  split.
  - apply (proj1 (init_propagates_serializer_error NonSerializer (Some TaggedText)
                    "<shim>" ∅ PNone (TypeError "not optional text"))).
    reflexivity.
  - apply (proj2 (init_propagates_serializer_error NonSerializer
                    (Some (SerializerObj true (fun _ => Raise (ValueError "unreadable")) Ok))
                    "<shim>" ∅ (test_value "<shim>") (ValueError "unreadable")));
      reflexivity.
Defined.

(** ** put and get: errors and frame *)

(** X7: when the serializer raises on a value, [put] raises that
    exception and the child's [put] is not called: the child's state is
    what it was.  When the serializer returns, [put] is the child's [put]
    of the serialized value under the same key, with the child's outcome
    (a child's failure included). *)
Theorem put_serializer_error {Query D : Type} `{!Datastore Query D}
    (self : SerializerShimDatastore) (key : Key) (v : pyval) (d : D) :
  v ≠ PNone →
  (∀ e, dumps (serializer self) v = Raise e → put self key v d = (Raise e, d)) ∧
  (∀ w, dumps (serializer self) v = Ok w → put self key v d = ds_put key w d).
Proof.
  intros Hv. split.
  - intros e Hd. rewrite put_unfold, Hd by assumption. reflexivity.
  - intros w Hd. rewrite put_unfold, Hd by assumption. reflexivity.
Qed.

Lemma put_serializer_error_witness :
  put (Query := unit) (mkShim TaggedText) hello (PInt 1)
    ({[ hello := PStr "sworld" ]} : gmap Key pyval)
  = (Raise (TypeError "not optional text"), {[ hello := PStr "sworld" ]}).
Proof.
  apply (proj1 (put_serializer_error (Query := unit) (mkShim TaggedText) hello (PInt 1)
                  ({[ hello := PStr "sworld" ]} : gmap Key pyval) ltac:(discriminate))).
  reflexivity.
Defined.

(** X8: a shim with [NonSerializer] is transparent: its [get] and [put]
    are the child's, for every key and value ([None] included), in result
    and in effect. *)
Theorem NonSerializer_shim_transparent {Query D : Type} `{!Datastore Query D}
    (key : Key) (value : pyval) (d : D) :
  get (mkShim NonSerializer) key d = ds_get key d ∧
  put (mkShim NonSerializer) key value d = ds_put key value d.
Proof.
  split.
  - unfold get, lift, mbind, M_bind.
    destruct (ds_get key d) as [[raw|e] d']; [|reflexivity].
    destruct raw; reflexivity.
  - unfold put, lift, mbind, M_bind. destruct value; reflexivity.
Qed.

(** X9: [get] does nothing to the child but the child's own [get]; an
    exception of the child is passed on as it is, and so is an exception
    of [loads] on the raw value read. *)
Theorem get_frame_and_errors {Query D : Type} `{!Datastore Query D}
    (self : SerializerShimDatastore) (key : Key) (d : D) :
  (get self key d).2 = (ds_get key d).2 ∧
  (∀ e d', ds_get key d = (Raise e, d') → get self key d = (Raise e, d')) ∧
  (∀ raw e d', raw ≠ PNone → ds_get key d = (Ok raw, d') →
               loads (serializer self) raw = Raise e →
               get self key d = (Raise e, d')).
Proof.
  split; [|split].
  - unfold get, lift, mbind, M_bind.
    destruct (ds_get key d) as [[raw|e] d']; reflexivity.
  - intros e d'. apply get_raise.
  - intros raw e d' Hraw Hget Hl.
    rewrite (get_present self key raw d d' Hraw Hget), Hl. reflexivity.
Qed.

Lemma get_frame_and_errors_witness :
  get (Query := unit) (mkShim TaggedText) hello ({[ hello := PStr "world" ]} : gmap Key pyval)
  = (Raise (ValueError "malformed text"), {[ hello := PStr "world" ]}).
Proof.
  apply (proj2 (proj2 (get_frame_and_errors (Query := unit) (mkShim TaggedText) hello
                         ({[ hello := PStr "world" ]} : gmap Key pyval)))
           (PStr "world") (ValueError "malformed text") {[ hello := PStr "world" ]});
    [discriminate | reflexivity | reflexivity].
Defined.

(** X10: the life of a key in [subtest_serializer_shim], over the
    in-memory child: a key that is not there is not contained and reads
    as [None]; after [put] it is contained, reads as the value, and the
    child holds the serialized value; after [delete] it is gone again; a
    serialized value put into the child directly is read through the shim
    as the value; and deleting it in the child removes it for the shim. *)
Theorem shim_key_life {Query : Type} (self : SerializerShimDatastore) (key : Key)
    (v w : pyval) (d : gmap Key pyval) :
  v ≠ PNone →
  dumps (serializer self) v = Ok w →
  w ≠ PNone →
  loads (serializer self) w = Ok v →
  d !! key = None →
  contains (Query := Query) self key d = (Ok false, d) ∧
  get (Query := Query) self key d = (Ok PNone, d) ∧
  put (Query := Query) self key v d = (Ok tt, <[key := w]> d) ∧
  contains (Query := Query) self key (<[key := w]> d) = (Ok true, <[key := w]> d) ∧
  get (Query := Query) self key (<[key := w]> d) = (Ok v, <[key := w]> d) ∧
  ds_get (Query := Query) key (<[key := w]> d) = (Ok w, <[key := w]> d) ∧
  delete (Query := Query) self key (<[key := w]> d) = (Ok tt, d) ∧
  ds_put (Query := Query) key w d = (Ok tt, <[key := w]> d) ∧
  ds_delete (Query := Query) key (<[key := w]> d) = (Ok tt, d).
Proof.
  intros Hv Hd Hw Hl Hkey.
  assert (Hdel : base.delete key (<[key := w]> d) = d)
    by (rewrite delete_insert_eq; apply delete_id, Hkey).
  assert (Hputw : ds_put (Query := Query) key w d = (Ok tt, <[key := w]> d))
    by (simpl; destruct w; [congruence | reflexivity ..]).
  assert (Hgetw : ds_get (Query := Query) key (<[key := w]> d) = (Ok w, <[key := w]> d))
    by (simpl; rewrite lookup_insert_eq; reflexivity).
  repeat split.
  - unfold contains. simpl. rewrite Hkey. f_equal.
  - apply get_absent. simpl. rewrite Hkey. reflexivity.
  - rewrite put_unfold, Hd by assumption. exact Hputw.
  - unfold contains. simpl. rewrite lookup_insert_eq. reflexivity.
  - rewrite (get_present self key w _ _ Hw Hgetw), Hl. reflexivity.
  - exact Hgetw.
  - unfold delete. simpl. rewrite Hdel. reflexivity.
  - exact Hputw.
  - simpl. rewrite Hdel. reflexivity.
Qed.

Lemma shim_key_life_witness :
  put (Query := unit) (mkShim BoxStack) hello (PStr "world") ∅
  = (Ok tt, <[hello := PList [PList [PStr "world"]]]> ∅) ∧
  delete (Query := unit) (mkShim BoxStack) hello
    (<[hello := PList [PList [PStr "world"]]]> (∅ : gmap Key pyval))
  = (Ok tt, ∅).
Proof.
  destruct (shim_key_life (Query := unit) (mkShim BoxStack) hello (PStr "world")
              (PList [PList [PStr "world"]]) ∅
              ltac:(discriminate) eq_refl ltac:(discriminate) eq_refl eq_refl)
    as (_ & _ & Hput & _ & _ & _ & Hdel & _).
  split; [exact Hput | exact Hdel].
Defined.

(** ** The generators *)

Lemma next_serialized_gen_cons s x rest :
  next (serialized_gen s (result_iter (x :: rest))) =
  match dumps s x with
  | Ok w => (Yield w, serialized_gen s (result_iter rest), [DumpsCall x])
  | Raise e => (Raised e, exhausted, [DumpsCall x])
  end.
Proof. simpl. destruct (dumps s x); reflexivity. Qed.

Lemma consume_S m it :
  consume (S m) it =
  match next it with
  | (Yield v, it', evs) =>
      let '(steps, it'', evs') := consume m it' in (Yield v :: steps, it'', evs ++ evs')
  | (st, it', evs) => ([st], it', evs)
  end.
Proof. reflexivity. Qed.

(** X11: [serialized_gen] is as lazy as [deserialized_gen]: a consumer of
    at most [m] elements has [dumps] called on the first [n ≤ m] items
    only, in order and once each; when the first [m] items serialize it
    gets exactly their [dumps] and the source has been advanced by [m]. *)
Theorem serialized_gen_lazy (s : Serializer) (items : list pyval) (m : nat) :
  (∃ n, n ≤ m ∧ n ≤ length items ∧
        (consume m (serialized_gen s (result_iter items))).2 = DumpsCall <$> take n items) ∧
  (∀ ws, m ≤ length items →
         Forall2 (fun x w => dumps s x = Ok w) (take m items) ws →
         consume m (serialized_gen s (result_iter items)) =
         (Yield <$> ws, serialized_gen s (result_iter (drop m items)),
          DumpsCall <$> take m items)).
Proof.
  split.
  - revert items. induction m as [|m IH]; intros items.
    + exists 0. repeat split; simpl; lia.
    + destruct items as [|x rest].
      * exists 0. repeat split; simpl; lia.
      * rewrite consume_S, next_serialized_gen_cons.
        destruct (dumps s x) as [w|e].
        -- destruct (IH rest) as (n & Hm & Hn & Hevs).
           destruct (consume m (serialized_gen s (result_iter rest))) as [[steps it'] evs'].
           simpl in Hevs. subst evs'.
           exists (S n). repeat split; simpl; lia.
        -- exists 1. repeat split; simpl; lia.
  - revert items. induction m as [|m IH]; intros items ws Hm Hall.
    + rewrite take_0 in Hall. inversion Hall. reflexivity.
    + destruct items as [|x rest]; [simpl in Hm; lia|].
      simpl in Hm. rewrite firstn_cons in Hall.
      inversion Hall as [|? w ? ws' Hx Hrest]; subst.
      rewrite consume_S, next_serialized_gen_cons, Hx.
      rewrite (IH rest ws') by (assumption || lia).
      reflexivity.
Qed.

Lemma serialized_gen_lazy_witness :
  consume 1 (serialized_gen BoxSerializer (result_iter [PInt 1; PInt 2; PInt 3])) =
  ([Yield (PList [PInt 1])],
   serialized_gen BoxSerializer (result_iter [PInt 2; PInt 3]),
   [DumpsCall (PInt 1)]).
Proof.
  apply (proj2 (serialized_gen_lazy BoxSerializer [PInt 1; PInt 2; PInt 3] 1)
           [PList [PInt 1]]); [simpl; lia | repeat constructor].
Defined.

(** X12: the two generators chained undo each other element by element:
    over items on which [loads] undoes [dumps], a consumer of
    [deserialized_gen(s, serialized_gen(s, items))] gets the items back,
    each serialized and deserialized when it is asked for and not
    before, and the source advanced by as many items as were asked. *)
Theorem generators_round_trip (s : Serializer) (items ws : list pyval) (m : nat) :
  m ≤ length items →
  Forall2 (fun x w => dumps s x = Ok w ∧ loads s w = Ok x) (take m items) ws →
  consume m (deserialized_gen s (serialized_gen s (result_iter items))) =
  (Yield <$> take m items,
   deserialized_gen s (serialized_gen s (result_iter (drop m items))),
   mjoin (zip_with (fun x w => [DumpsCall x; LoadsCall w]) (take m items) ws)).
Proof.
  revert items ws. induction m as [|m IH]; intros items ws Hm Hall.
  - rewrite take_0 in Hall. inversion Hall. reflexivity.
  - destruct items as [|x rest]; [simpl in Hm; lia|].
    simpl in Hm. rewrite firstn_cons in Hall.
    inversion Hall as [|? w ? ws' [Hd Hl] Hrest]; subst.
    rewrite consume_S.
    cbn [next]. rewrite Hd. cbn [app]. rewrite Hl.
    rewrite (IH rest ws') by (assumption || lia).
    reflexivity.
Qed.

Lemma generators_round_trip_witness :
  consume 2 (deserialized_gen BoxSerializer
               (serialized_gen BoxSerializer (result_iter [PInt 1; PInt 2; PInt 3]))) =
  ([Yield (PInt 1); Yield (PInt 2)],
   deserialized_gen BoxSerializer (serialized_gen BoxSerializer (result_iter [PInt 3])),
   [DumpsCall (PInt 1); LoadsCall (PList [PInt 1]);
    DumpsCall (PInt 2); LoadsCall (PList [PInt 2])]).
Proof.
  apply (generators_round_trip BoxSerializer [PInt 1; PInt 2; PInt 3]
           [PList [PInt 1]; PList [PInt 2]] 2);
    [simpl; lia | repeat constructor].
Defined.

(** X13: an element that does not deserialize ends the generator: the
    consumer gets the elements before it and then the exception of
    [loads]; [loads] has been called on nothing after the failing item;
    and every later [next()] stops at once, without a call, so the items
    after it are never deserialized. *)
Theorem deserialized_gen_stops_at_failure (s : Serializer) (pre post vs : list pyval)
    (x : pyval) (e : exn) (m : nat) :
  Forall2 (fun x v => loads s x = Ok v) pre vs →
  loads s x = Raise e →
  length pre < m →
  consume m (deserialized_gen s (result_iter (pre ++ x :: post))) =
  ((Yield <$> vs) ++ [Raised e], exhausted, LoadsCall <$> (pre ++ [x])) ∧
  ∀ m', consume (S m') exhausted = ([StopIteration], exhausted, []).
Proof.
  intros Hall Hx Hm. split; [|reflexivity].
  revert m Hm. induction Hall as [|y v pre' vs' Hy Hrest IH]; intros m Hm.
  - destruct m as [|m]; [simpl in Hm; lia|].
    simpl app. rewrite consume_S, next_deserialized_gen_cons, Hx. reflexivity.
  - destruct m as [|m]; [simpl in Hm; lia|]. simpl in Hm.
    rewrite <- app_comm_cons, consume_S, next_deserialized_gen_cons, Hy.
    rewrite (IH m) by lia. reflexivity.
Qed.

Lemma deserialized_gen_stops_at_failure_witness :
  consume 3 (deserialized_gen BoxSerializer
               (result_iter ([PList [PInt 1]] ++ PInt 2 :: [PList [PInt 3]]))) =
  ([Yield (PInt 1); Raised (ValueError "not a boxed value")], exhausted,
   [LoadsCall (PList [PInt 1]); LoadsCall (PInt 2)]).
Proof.
  apply (deserialized_gen_stops_at_failure BoxSerializer [PList [PInt 1]] [PList [PInt 3]]
           [PInt 1] (PInt 2) (ValueError "not a boxed value") 3);
    [repeat constructor | reflexivity | simpl; lia].
Defined.

(** X14: the generator is single-pass and ends with the child's
    sequence: a consumer that asks for more than the [N] items there are
    gets their [N] deserialized values and then the end of the
    iteration, with [N] calls of [loads] in all, and the generator is
    exhausted. *)
Theorem deserialized_gen_exhausts (s : Serializer) (items vs : list pyval) (m : nat) :
  length items < m →
  Forall2 (fun x v => loads s x = Ok v) items vs →
  consume m (deserialized_gen s (result_iter items)) =
  ((Yield <$> vs) ++ [StopIteration], exhausted, LoadsCall <$> items) ∧
  loads_calls (consume m (deserialized_gen s (result_iter items))).2 = length items ∧
  next (consume m (deserialized_gen s (result_iter items))).1.2 =
  (StopIteration, exhausted, []).
Proof.
  intros Hm Hall.
  rewrite (consume_all s items vs m Hm Hall). simpl.
  split; [reflexivity|]. split; [apply loads_calls_LoadsCall | reflexivity].
Qed.

Lemma deserialized_gen_exhausts_witness :
  consume 5 (deserialized_gen BoxSerializer (result_iter [PList [PInt 1]; PList [PInt 2]])) =
  ([Yield (PInt 1); Yield (PInt 2); StopIteration], exhausted,
   [LoadsCall (PList [PInt 1]); LoadsCall (PList [PInt 2])]).
Proof.
  apply (deserialized_gen_exhausts BoxSerializer [PList [PInt 1]; PList [PInt 2]]
           [PInt 1; PInt 2] 5); [simpl; lia | repeat constructor].
Defined.

(** X15: consumption can be resumed: when a consumer of [m] elements got
    [m] elements, consuming [m'] more from the iterator it left gives,
    put after what it got, exactly what a consumer of [m + m'] elements
    gets from the start, with the same serializer calls in the same
    order: no element is processed twice and none is skipped. *)
Theorem consume_resumes (it it' : iterable) (m m' : nat) (steps : list step)
    (evs : list event) :
  consume m it = (steps, it', evs) →
  forallb is_Yield steps = true →
  consume (m + m') it =
  (steps ++ (consume m' it').1.1, (consume m' it').1.2, evs ++ (consume m' it').2).
Proof.
  revert it steps evs. induction m as [|m IH]; intros it steps evs Hc Hy.
  - simpl in Hc. injection Hc as <- <- <-.
    simpl. destruct (consume m' it) as [[st i] ev]. reflexivity.
  - rewrite consume_S in Hc. change (S m + m') with (S (m + m')). rewrite consume_S.
    destruct (next it) as [[st it1] evs1]. destruct st as [v| |e].
    + destruct (consume m it1) as [[steps1 it2] evs2] eqn:Hc1.
      injection Hc as <- <- <-. simpl in Hy.
      rewrite (IH it1 steps1 evs2 Hc1 Hy).
      rewrite <- app_assoc. reflexivity.
    + injection Hc as <- <- <-. discriminate Hy.
    + injection Hc as <- <- <-. discriminate Hy.
Qed.

Lemma consume_resumes_witness :
  consume (1 + 1) (deserialized_gen BoxSerializer
                     (result_iter [PList [PInt 1]; PList [PInt 2]; PList [PInt 3]])) =
  ([Yield (PInt 1); Yield (PInt 2)],
   deserialized_gen BoxSerializer (result_iter [PList [PInt 3]]),
   [LoadsCall (PList [PInt 1]); LoadsCall (PList [PInt 2])]).
Proof.
  apply (consume_resumes
           (deserialized_gen BoxSerializer
              (result_iter [PList [PInt 1]; PList [PInt 2]; PList [PInt 3]]))
           (deserialized_gen BoxSerializer (result_iter [PList [PInt 2]; PList [PInt 3]]))
           1 1 [Yield (PInt 1)] [LoadsCall (PList [PInt 1])]);
    reflexivity.
Defined.

(** ** Shims over shims *)

(** X16: a shim with serializer [s2] over a shim with serializer [s1]
    stores and reads what a single shim with [Stack([s2, s1])] does, as
    long as no intermediate value is [None]: [put] agrees when
    [s2.dumps(v)] is not [None], and [get] agrees when [s1.loads] of the
    raw value read is not [None] (each shim takes a [None] for absence
    and would not hand it to its serializer). *)
Theorem nested_shims_are_a_Stack {Query D : Type} `{!Datastore Query D}
    (s1 s2 : Serializer) (key : Key) (d : D) :
  (∀ v w, v ≠ PNone → dumps s2 v = Ok w → w ≠ PNone →
          @put Query D (shim_as_datastore (mkShim s1)) (mkShim s2) key v d =
          put (mkShim (Stack [s2; s1])) key v d) ∧
  ((∀ raw d', ds_get key d = (Ok raw, d') → loads s1 raw ≠ Ok PNone) →
   @get Query D (shim_as_datastore (mkShim s1)) (mkShim s2) key d =
   get (mkShim (Stack [s2; s1])) key d).
Proof.
  split.
  - intros v w Hv Hd Hw.
    rewrite (@put_unfold Query D (shim_as_datastore (mkShim s1)) (mkShim s2) key v d Hv).
    rewrite (put_unfold (mkShim (Stack [s2; s1])) key v d Hv).
    cbn [serializer]. rewrite dumps_Stack_cons, Hd, bind_Ok.
    change (dumps (Stack [s1]) w) with (dumps s1 w ≫= Ok). rewrite bind_Ok_r.
    cbn [ds_put shim_as_datastore].
    rewrite (put_unfold (mkShim s1) key w d Hw). reflexivity.
  - intros Hnone.
    unfold get at 1. unfold mbind at 1. unfold M_bind.
    cbn [ds_get shim_as_datastore].
    destruct (ds_get key d) as [[raw|e] d'] eqn:Hget.
    + assert (Hcase : raw = PNone ∨ raw ≠ PNone)
        by (destruct raw; [left; reflexivity | right; discriminate ..]).
      destruct Hcase as [->|Hraw].
      * rewrite (get_absent (mkShim s1) key d d' Hget).
        rewrite (get_absent (mkShim (Stack [s2; s1])) key d d' Hget). reflexivity.
      * rewrite (get_present (mkShim s1) key raw d d' Hraw Hget).
        rewrite (get_present (mkShim (Stack [s2; s1])) key raw d d' Hraw Hget).
        cbn [serializer]. rewrite loads_Stack_cons.
        change (loads (Stack [s1]) raw) with (Ok raw ≫= loads s1). rewrite bind_Ok.
        specialize (Hnone raw d' eq_refl).
        destruct (loads s1 raw) as [x|e]; [|reflexivity].
        destruct x; try reflexivity. congruence.
    + rewrite (get_raise (mkShim s1) key e d d' Hget).
      rewrite (get_raise (mkShim (Stack [s2; s1])) key e d d' Hget). reflexivity.
Qed.

Lemma nested_shims_are_a_Stack_witness :
  @put unit (gmap Key pyval) (shim_as_datastore (mkShim TaggedText)) (mkShim TextSerializer)
    hello (PInt 7) ∅
  = (Ok tt, {[ hello := PStr "sint" ]}) ∧
  @get unit (gmap Key pyval) (shim_as_datastore (mkShim TaggedText)) (mkShim TextSerializer)
    hello {[ hello := PStr "sint" ]}
  = (Ok (PStr "int"), {[ hello := PStr "sint" ]}).
Proof.
  split.
  - rewrite (proj1 (nested_shims_are_a_Stack (Query := unit) TaggedText TextSerializer
                      hello (∅ : gmap Key pyval)) (PInt 7) (PStr "int"));
      [reflexivity | discriminate | reflexivity | discriminate].
  - rewrite (proj2 (nested_shims_are_a_Stack (Query := unit) TaggedText TextSerializer
                      hello ({[ hello := PStr "sint" ]} : gmap Key pyval)));
      [reflexivity|].
    intros raw d' Hget. injection Hget as <- <-. discriminate.
Defined.

Lemma consume_nested_steps (s1 s2 : Serializer) (items : list pyval) (m : nat) :
  (consume m (deserialized_gen s2 (deserialized_gen s1 (result_iter items)))).1.1 =
  (consume m (deserialized_gen (Stack [s2; s1]) (result_iter items))).1.1.
Proof.
  revert items. induction m as [|m IH]; intros items; [reflexivity|].
  rewrite !consume_S. destruct items as [|x rest]; [reflexivity|].
  rewrite next_deserialized_gen_cons, loads_Stack_cons.
  change (loads (Stack [s1]) x) with (Ok x ≫= loads s1). rewrite bind_Ok.
  cbn [next]. destruct (loads s1 x) as [y|e]; [|reflexivity].
  rewrite bind_Ok. destruct (loads s2 y) as [v|e]; [|reflexivity].
  specialize (IH rest).
  destruct (consume m (deserialized_gen s2 (deserialized_gen s1 (result_iter rest))))
    as [[st1 i1] ev1].
  destruct (consume m (deserialized_gen (Stack [s2; s1]) (result_iter rest)))
    as [[st2 i2] ev2].
  simpl in IH. simpl. rewrite IH. reflexivity.
Qed.

(** X17: a query through a shim with [s2] over a shim with [s1] gives a
    cursor that yields, element for element and exception for
    exception, what the cursor of a single shim with [Stack([s2, s1])]
    yields, for every consumer (the generators hand every element to
    [loads], a [None] too). *)
Theorem nested_query_is_a_Stack_query {Query D : Type} `{!Datastore Query D}
    (s1 s2 : Serializer) (q : Query) (d d' : D) (cursor : Cursor Query)
    (items : list pyval) :
  ds_query q d = (Ok cursor, d') →
  _iterable cursor = result_iter items →
  ∃ nested single,
    @query Query D (shim_as_datastore (mkShim s1)) (mkShim s2) q d = (Ok nested, d') ∧
    query (mkShim (Stack [s2; s1])) q d = (Ok single, d') ∧
    cursor_query nested = cursor_query single ∧
    cursor_attrs nested = cursor_attrs single ∧
    ∀ m, (consume m (_iterable nested)).1.1 = (consume m (_iterable single)).1.1.
Proof.
  intros Hq Hit.
  eexists. eexists. split; [|split].
  - rewrite (@query_unfold Query D (shim_as_datastore (mkShim s1))).
    cbn [ds_query shim_as_datastore]. rewrite query_unfold, Hq. reflexivity.
  - rewrite query_unfold, Hq. reflexivity.
  - simpl. rewrite Hit. split; [reflexivity|]. split; [reflexivity|].
    intros m. apply consume_nested_steps.
Qed.

Lemma nested_query_is_a_Stack_query_witness :
  ∃ nested single,
    @query unit (gmap Key pyval) (shim_as_datastore (mkShim BoxSerializer))
      (mkShim NonSerializer) tt three_values = (Ok nested, three_values) ∧
    query (Query := unit) (mkShim (Stack [NonSerializer; BoxSerializer])) tt three_values
    = (Ok single, three_values) ∧
    (consume 2 (_iterable nested)).1.1 = (consume 2 (_iterable single)).1.1.
Proof.
  destruct (nested_query_is_a_Stack_query (Query := unit) BoxSerializer NonSerializer tt
              three_values three_values
              (mkCursor tt (result_iter [PList [PInt 1]; PList [PInt 2]; PList [PInt 0]]) ∅)
              [PList [PInt 1]; PList [PInt 2]; PList [PInt 0]]
              query_three_values eq_refl)
    as (nested & single & Hn & Hs & _ & _ & Hsteps).
  exists nested, single. split; [exact Hn|]. split; [exact Hs|]. apply Hsteps.
Defined.

(** ** Keys: ancestry as an order, and parents *)

Lemma string_app_assoc (a b c : string) : (a +:+ b) +:+ c = a +:+ (b +:+ c).
Proof.
  induction a as [|x a IH]; [reflexivity|].
  change (String x ((a +:+ b) +:+ c) = String x (a +:+ (b +:+ c))).
  f_equal. exact IH.
Qed.

Lemma string_app_length (a b : string) :
  String.length (a +:+ b) = String.length a + String.length b.
Proof.
  induction a as [|x a IH]; [reflexivity|].
  change (S (String.length (a +:+ b)) = S (String.length a + String.length b)).
  f_equal. exact IH.
Qed.

Lemma prefix_exists (p s : string) :
  String.prefix p s = true ↔ ∃ r, s = p +:+ r.
Proof.
  revert s. induction p as [|a p IH]; intros s.
  - split; [intros _; exists s; reflexivity | intros _; destruct s; reflexivity].
  - destruct s as [|b s]; simpl.
    + split; [discriminate | intros [r Hr]; discriminate Hr].
    + destruct (ascii_dec a b) as [->|Hab].
      * rewrite IH. split; intros [r Hr]; exists r.
        -- rewrite Hr. reflexivity.
        -- change (String b p +:+ r) with (String b (p +:+ r)) in Hr. congruence.
      * split; [discriminate|]. intros [r Hr].
        change (String a p +:+ r) with (String a (p +:+ r)) in Hr. congruence.
Qed.

Lemma is_ancestor_of_exists (k1 k2 : Key) :
  is_ancestor_of k1 k2 = true ↔ ∃ r, _string k2 = _string k1 +:+ String "/" r.
Proof.
  rewrite is_ancestor_of_prefix, prefix_exists.
  split; intros [r Hr]; exists r; rewrite Hr, string_app_assoc; reflexivity.
Qed.

(** X18: ancestry is a strict order on keys: an ancestor of an ancestor
    is an ancestor, and a key is never an ancestor of one of its own
    ancestors. *)
Theorem ancestor_strict_order (k1 k2 k3 : Key) :
  (is_ancestor_of k1 k2 = true → is_ancestor_of k2 k3 = true →
   is_ancestor_of k1 k3 = true) ∧
  (is_ancestor_of k1 k2 = true → is_ancestor_of k2 k1 = false).
Proof.
  split.
  - rewrite !is_ancestor_of_exists. intros [r1 H1] [r2 H2].
    exists (r1 +:+ String "/" r2). rewrite H2, H1, string_app_assoc. reflexivity.
  - intros H12. destruct (is_ancestor_of k2 k1) eqn:H21; [|reflexivity].
    apply is_ancestor_of_exists in H12 as [r1 H1].
    apply is_ancestor_of_exists in H21 as [r2 H2].
    apply (f_equal String.length) in H1, H2.
    rewrite string_app_length in H1, H2. simpl in H1, H2. lia.
Qed.

Lemma ancestor_strict_order_witness :
  is_ancestor_of (new_Key "/A") (new_Key "/A/B/C/D") = true ∧
  is_ancestor_of (new_Key "/A/B/C") (new_Key "/A") = false.
Proof.
  split.
  - apply (proj1 (ancestor_strict_order (new_Key "/A") (new_Key "/A/B/C")
                    (new_Key "/A/B/C/D"))); reflexivity.
  - apply (proj2 (ancestor_strict_order (new_Key "/A") (new_Key "/A/B/C") (new_Key "/A")));
      reflexivity.
Defined.

(** X19: a child is a descendant of its key: for a key other than the
    bare root and a name that is one segment, the key is an ancestor of
    [key.child(name)], the child a descendant of the key, and not the
    other way round. *)
Theorem child_is_descendant (s name : string) :
  bare_name name = true →
  _string (new_Key s) ≠ "/" →
  is_ancestor_of (new_Key s) (child (new_Key s) name) = true ∧
  is_descendant_of (child (new_Key s) name) (new_Key s) = true ∧
  is_ancestor_of (child (new_Key s) name) (new_Key s) = false.
Proof.
  intros Hname Hroot.
  destruct (remove_duplicate_slashes_normal s) as [Hnd [Hend|Hend]]; [contradiction|].
  assert (H : is_ancestor_of (new_Key s) (child (new_Key s) name) = true).
  { apply is_ancestor_of_exists. exists name.
    apply (child_string (new_Key s) name Hnd Hend Hname). }
  split; [exact H|]. split; [exact H|].
  destruct (is_ancestor_of (child (new_Key s) name) (new_Key s)) eqn:Hback; [|reflexivity].
  apply is_ancestor_of_exists in H as [r1 H1].
  apply is_ancestor_of_exists in Hback as [r2 H2].
  apply (f_equal String.length) in H1, H2.
  rewrite string_app_length in H1, H2. simpl in H1, H2. lia.
Qed.

Lemma child_is_descendant_witness :
  is_ancestor_of (new_Key "/A/B/C") (child (new_Key "/A/B/C") "D") = true ∧
  is_descendant_of (child (new_Key "/A/B/C") "D") (new_Key "/A/B/C") = true ∧
  is_ancestor_of (child (new_Key "/A/B/C") "D") (new_Key "/A/B/C") = false.
Proof.
  apply (child_is_descendant "/A/B/C" "D"); [reflexivity | discriminate].
Defined.

Lemma split_last_segment (t : string) :
  no_sep t = false →
  ∃ a seg, t = a +:+ String "/" seg ∧ no_sep seg = true ∧ split t = split a ++ [seg].
Proof.
  induction t as [|c t IH]; [discriminate|].
  intros Ht. destruct (no_sep t) eqn:Hrest.
  - simpl in Ht. rewrite Hrest, andb_true_r in Ht.
    apply negb_false_iff, is_sep_eq in Ht. subst c.
    exists EmptyString, t. split; [reflexivity|]. split; [exact Hrest|].
    simpl. rewrite (split_no_sep t Hrest). reflexivity.
  - destruct (IH eq_refl) as (a & seg & Heq & Hseg & Hsplit).
    exists (String c a), seg. split; [simpl; rewrite Heq; reflexivity|].
    split; [exact Hseg|].
    rewrite Heq at 1. change (String c (a +:+ String "/" seg))
      with (String c a +:+ String "/" seg).
    rewrite split_app_sep, (split_no_sep seg Hseg). reflexivity.
Qed.

Lemma no_double_before_sep (a b : string) :
  no_double (a +:+ String "/" b) = true → no_double a = true ∧ ends_with_sep a = false.
Proof.
  induction a as [|c a IH]; [intros _; split; reflexivity|].
  change (String c a +:+ String "/" b) with (String c (a +:+ String "/" b)).
  cbn [no_double]. intros H. apply andb_true_iff in H as [Hc Hrest].
  destruct (IH Hrest) as [Hnd Hend]. apply negb_true_iff in Hc.
  destruct a as [|c' a'].
  - simpl in Hc. rewrite andb_true_r in Hc. simpl. rewrite Hc. split; reflexivity.
  - split.
    + change (negb (is_sep c && starts_with_sep (String c' a'))
              && no_double (String c' a') = true).
      rewrite Hnd, andb_true_r. apply negb_true_iff. exact Hc.
    + rewrite ends_with_sep_cons by discriminate. exact Hend.
Qed.

Lemma segments_no_sep (t : string) : no_sep t = true → length (segments t) ≤ 1.
Proof.
  intros H. unfold segments. rewrite (split_no_sep t H). simpl.
  destruct (String.eqb t ""); simpl; lia.
Qed.

Lemma ends_with_sep_trailing (a : string) : ends_with_sep (a +:+ "/") = true.
Proof.
  induction a as [|c a IH]; [reflexivity|].
  change (String c a +:+ "/") with (String c (a +:+ "/")).
  rewrite ends_with_sep_cons; [exact IH|]. destruct a; discriminate.
Qed.

(** X20: which keys have a parent, and what it is.  [parent] raises
    [ValueError] for the keys with at most one segment (the empty key,
    the root and the single top-level segments).  For a key with two
    segments or more it returns a key [p] such that the key's string is
    [p]'s string, a separator and one last segment; the segments of [p]
    are those of the key but the last; [p] is an ancestor of the key; and
    [p.child(last segment)] is the key again. *)
Theorem parent_of_a_key (s : string) :
  (length (segments (_string (new_Key s))) ≤ 1 →
   parent (new_Key s) = Raise (ValueError "base key (it has no parent)")) ∧
  (1 < length (segments (_string (new_Key s))) →
   ∃ p seg, parent (new_Key s) = Ok p ∧
            bare_name seg = true ∧
            _string (new_Key s) = _string p +:+ "/" +:+ seg ∧
            segments (_string (new_Key s)) = segments (_string p) ++ [seg] ∧
            is_ancestor_of p (new_Key s) = true ∧
            child p seg = new_Key s).
Proof.
  split.
  - intros Hlen. unfold parent.
    destruct (decide (1 < length (segments (_string (new_Key s))))); [lia | reflexivity].
  - intros Hlen.
    assert (Hns : no_sep (_string (new_Key s)) = false).
    { destruct (no_sep (_string (new_Key s))) eqn:Hns; [|reflexivity].
      apply segments_no_sep in Hns. lia. }
    destruct (split_last_segment _ Hns) as (a & seg & Heq & Hseg & Hsplit).
    destruct (remove_duplicate_slashes_normal s) as [Hnd Hend].
    change (remove_duplicate_slashes s) with (_string (new_Key s)) in Hnd, Hend.
    assert (Hne : seg ≠ EmptyString).
    { intros ->. destruct Hend as [Hroot|Hend].
      - rewrite Hroot in Hlen. simpl in Hlen. lia.
      - rewrite Heq, ends_with_sep_trailing in Hend. discriminate Hend. }
    assert (Hbare : bare_name seg = true) by (apply bare_name_spec; auto).
    rewrite Heq in Hnd. apply no_double_before_sep in Hnd as [Hnda Henda].
    assert (Hp : new_Key a = mkKey a).
    { unfold new_Key. rewrite remove_duplicate_slashes_fixed; auto. }
    exists (mkKey a), seg.
    assert (Hparent : parent (new_Key s) = Ok (mkKey a)).
    { unfold parent.
      destruct (decide (1 < length (segments (_string (new_Key s))))); [|lia].
      rewrite Hsplit, removelast_last, join_split, Hp. reflexivity. }
    split; [exact Hparent|]. split; [exact Hbare|].
    split; [exact Heq|]. split; [|split].
    + cbn [_string]. rewrite Heq at 1.
      rewrite segments_app_sep, (segments_bare_name seg Hbare). reflexivity.
    + apply is_ancestor_of_exists. exists seg. exact Heq.
    + unfold child. cbn [_string].
      change (a +:+ "/" +:+ seg) with (a +:+ String "/" seg).
      rewrite <- Heq. apply new_Key_string.
Qed.

Lemma parent_of_a_key_witness :
  parent (new_Key "/A") = Raise (ValueError "base key (it has no parent)") ∧
  ∃ p seg, parent (new_Key "/A/B/C/D") = Ok p ∧
           bare_name seg = true ∧
           _string (new_Key "/A/B/C/D") = _string p +:+ "/" +:+ seg ∧
           segments (_string (new_Key "/A/B/C/D")) = segments (_string p) ++ [seg] ∧
           is_ancestor_of p (new_Key "/A/B/C/D") = true ∧
           child p seg = new_Key "/A/B/C/D".
Proof.
  split.
  - apply (proj1 (parent_of_a_key "/A")). simpl. lia.
  - apply (proj2 (parent_of_a_key "/A/B/C/D")). simpl. lia.
Defined.

(** ** Storing None *)

(** X21: [put(key, None)] hands [None] to the child without calling the
    serializer, whatever the serializer is, and over a child that
    honours the contract the key then reads as [None] through the shim:
    storing [None] stores absence. *)
Theorem put_None_stores_absence {Query D : Type} `{!Datastore Query D}
    `{!DatastoreContract Query D} (self : SerializerShimDatastore) (key : Key) (d d' : D) :
  put self key PNone d = ds_put key PNone d ∧
  (put self key PNone d = (Ok tt, d') → get self key d' = (Ok PNone, d')).
Proof.
  split; [apply put_None|].
  rewrite put_None. intros Hput.
  apply get_absent. exact (get_after_put key PNone d d' Hput).
Qed.

Lemma put_None_stores_absence_witness :
  get (Query := unit)
    (mkShim (SerializerObj true (fun _ => Raise (ValueError "unreadable"))
                           (fun _ => Raise (TypeError "unwritable"))))
    hello (∅ : gmap Key pyval)
  = (Ok PNone, ∅).
Proof.
  apply (proj2 (put_None_stores_absence (Query := unit)
                  (mkShim (SerializerObj true (fun _ => Raise (ValueError "unreadable"))
                                         (fun _ => Raise (TypeError "unwritable"))))
                  hello ({[ hello := PStr "sworld" ]} : gmap Key pyval) ∅)).
  reflexivity.
Defined.
